(** * Manan: the chapter distillation and caching pipeline

    A shallow embedding of the orchestration code of the Manan reading
    companion (types.ts, services/geminiService.ts, services/bookParser.ts
    and the state handling of App.tsx), and the properties of its analysis
    cache, selection ledger, extraction client, segmentation and export.

    Conventions.
    - JavaScript numbers that hold indices and token counts are [nat]; the
      comparator of [toggleNote] subtracts them in [Z].
    - A field that may be [undefined] at run time is an [option].
    - [Map<number, ChapterData>] and [localStorage] are [gmap]s.
    - A promise that rejects is a [Throw]; a pending promise is an entry of
      the [pending] list of the component state, resumed by an event.
    - One event is one handler or continuation run to its next [await],
      followed by the commit of the render and its effects ([step]). *)

From Stdlib Require Import ZArith Ascii PrimFloat Uint63 Sorted.
From stdpp Require Import gmap strings list pretty sorting.
From Equations Require Import Equations.

Set Warnings "-inexact-float".

Open Scope string_scope.
Open Scope list_scope.
Open Scope nat_scope.

(** ** types.ts *)

Inductive NuggetType := QUOTE | LEARNING | INSIGHT.

(** The string value of each member of the enum. *)
Definition NuggetType_value (t : NuggetType) : string :=
  match t with
  | QUOTE => "quote"
  | LEARNING => "learning"
  | INSIGHT => "insight"
  end.

#[global] Instance NuggetType_eq_dec : EqDecision NuggetType.
Proof. solve_decision. Defined.

(** [BookNugget]. The [type] field holds, at run time, the string the
    service returned; [source], [locationLabel] and [tags] are optional. *)
Record BookNugget := mkBookNugget {
  bn_id : string;
  bn_type : string;
  bn_content : string;
  bn_source : option string;
  bn_locationLabel : option string;
  bn_sortIndex : nat;
  bn_tags : option (list string)
}.

(** [ChapterData]. Built from the parsed response, whose fields may be
    missing. *)
Record ChapterData := mkChapterData {
  cd_title : option string;
  cd_nuggets : list BookNugget;
  cd_isBackMatter : option bool;
  cd_isFrontMatter : option bool
}.

Record Book := mkBook {
  bk_title : string;
  bk_chapters : list string;
  bk_chapterLocations : list string
}.

Record NoteItem := mkNoteItem {
  nt_id : string;
  nt_content : string;
  nt_type : string;
  nt_chapterTitle : string;
  nt_chapterIndex : nat;
  nt_sortIndex : nat;
  nt_locationLabel : option string;
  nt_tags : list string;
  nt_source : option string
}.

#[global] Instance BookNugget_eq_dec : EqDecision BookNugget.
Proof. solve_decision. Defined.
#[global] Instance ChapterData_eq_dec : EqDecision ChapterData.
Proof. solve_decision. Defined.
#[global] Instance Book_eq_dec : EqDecision Book.
Proof. solve_decision. Defined.
#[global] Instance NoteItem_eq_dec : EqDecision NoteItem.
Proof. solve_decision. Defined.

(** ** JavaScript helpers *)

(** Exceptions and rejected promises. *)
Inductive JsError :=
  | SyntaxError   (* JSON.parse on malformed text *)
  | TypeError     (* property access on undefined *)
  | ServiceError  (* the request itself failed *)
  | FormatError.  (* unsupported upload *)

Inductive Result (A : Type) :=
  | Ok (a : A)
  | Throw (e : JsError).
Arguments Ok {A} a.
Arguments Throw {A} e.

(** Truthiness of a possibly missing boolean ([!!x]). *)
Definition truthy (x : option bool) : bool := default false x.

(** [Array.prototype.map] with the element index. *)
Fixpoint mapi_from {A B} (f : A → nat → B) (i : nat) (l : list A) : list B :=
  match l with
  | [] => []
  | x :: l' => f x i :: mapi_from f (S i) l'
  end.
Definition mapi {A B} (f : A → nat → B) (l : list A) : list B := mapi_from f 0 l.

(** [Array.prototype.sort(cmp)]: a stable sort (ECMAScript 2019), written as
    the insertion of each element, left to right, behind the elements that do
    not compare greater. [cmp a b < 0] places [a] before [b]. *)
Fixpoint sort_insert {A} (cmp : A → A → Z) (x : A) (l : list A) : list A :=
  match l with
  | [] => [x]
  | y :: l' => if (cmp x y <? 0)%Z then x :: y :: l' else y :: sort_insert cmp x l'
  end.
Definition js_sort {A} (cmp : A → A → Z) (l : list A) : list A :=
  fold_left (λ acc x, sort_insert cmp x acc) l [].

(** ** services/geminiService.ts *)

Record RawNugget := mkRawNugget {
  raw_id : string;
  raw_type : string;
  raw_content : string;
  raw_source : option string
}.

(** The object [JSON.parse] returns. The response schema names the fields;
    any of them may be absent from an actual response. [rd_isBoilerplate] is
    the flag of the current schema, [rd_isFrontMatter] the one of the earlier
    revision of the service. *)
Record RawData := mkRawData {
  rd_title : option string;
  rd_isBoilerplate : option bool;
  rd_isFrontMatter : option bool;
  rd_isBackMatter : option bool;
  rd_nuggets : option (list RawNugget)
}.

(** The object of the text "{}". *)
Definition emptyRaw : RawData := mkRawData None None None None None.

(** [response.text], by what [JSON.parse(jsonStr.trim())] makes of it. *)
Inductive ResponseText :=
  | TextAbsent                (* undefined or "": replaced by "{}" *)
  | TextMalformed             (* JSON.parse raises SyntaxError *)
  | TextNotObject             (* parses to null, a number, a string, ... *)
  | TextObject (raw : RawData).

Record UsageMetadata := mkUsageMetadata {
  promptTokenCount : nat;
  candidatesTokenCount : nat
}.

Record Response := mkResponse {
  rs_text : ResponseText;
  rs_usageMetadata : option UsageMetadata
}.

(** Outcome of [ai.models.generateContent]: the promise rejects, or it
    resolves with a response. *)
Inductive ServiceReply :=
  | Rejected
  | Replied (r : Response).

Record Usage := mkUsage { us_input : nat; us_output : nat }.

(** [response.usageMetadata || { promptTokenCount: 0, candidatesTokenCount: 0 }] *)
Definition usage_of (r : Response) : Usage :=
  let usage := default (mkUsageMetadata 0 0) (rs_usageMetadata r) in
  mkUsage (promptTokenCount usage) (candidatesTokenCount usage).

(** [JSON.parse((response.text || "{}").trim())]. On a value that is not an
    object the reads [rawData.isBoilerplate] (of [null]) or
    [rawData.nuggets.filter] (of anything else, [nuggets] being undefined)
    raise TypeError; nothing happens in between, so the error is raised
    here. *)
Definition parse_body (r : Response) : Result RawData :=
  match rs_text r with
  | TextAbsent => Ok emptyRaw
  | TextMalformed => Throw SyntaxError
  | TextNotObject => Throw TypeError
  | TextObject raw => Ok raw
  end.

(** [selectedTypes.includes(n.type)] *)
Definition includes_type (selectedTypes : list NuggetType) (ty : string) : bool :=
  bool_decide (ty ∈ NuggetType_value <$> selectedTypes).

(** The object built for each kept nugget:
    [{ ...n, id: `c${chapterIndex}_${n.id}`, locationLabel, sortIndex: idx }] *)
Definition make_nugget (chapterIndex : nat) (locationLabel : option string)
    (n : RawNugget) (idx : nat) : BookNugget :=
  {| bn_id := "c" +:+ pretty chapterIndex +:+ "_" +:+ raw_id n;
     bn_type := raw_type n;
     bn_content := raw_content n;
     bn_source := raw_source n;
     bn_locationLabel := locationLabel;
     bn_sortIndex := idx;
     bn_tags := None |}.

(** [scanChapterForNuggets], the revision with six parameters
    (src/unnamed/part_001): the calls in App.tsx pass six arguments, the
    last one the selection of types. The text of the chapter only enters
    the prompt; the reply is the service's. *)
Definition scanChapterForNuggets (reply : ServiceReply)
    (chapterText : option string) (chapterIndex : nat)
    (locationLabel : option string)
    (analyzeBackMatter analyzeBoilerplate : bool)
    (selectedTypes : list NuggetType) : Result (ChapterData * Usage) :=
  match reply with
  | Rejected => Throw ServiceError
  | Replied response =>
    let usage := usage_of response in
    match parse_body response with
    | Throw e => Throw e
    | Ok rawData =>
      let skipBecauseBoilerplate :=
        truthy (rd_isBoilerplate rawData) && negb analyzeBoilerplate in
      let skipBecauseBackMatter :=
        truthy (rd_isBackMatter rawData) && negb analyzeBackMatter in
      if skipBecauseBoilerplate || skipBecauseBackMatter then
        Ok ({| cd_title := rd_title rawData;
               cd_isBackMatter := Some (truthy (rd_isBackMatter rawData));
               cd_isFrontMatter := Some (truthy (rd_isBoilerplate rawData));
               cd_nuggets := [] |}, usage)
      else
        match rd_nuggets rawData with
        | None => Throw TypeError
        | Some nuggets =>
          let filteredNuggets :=
            filter (λ n, includes_type selectedTypes (raw_type n) = true) nuggets in
          Ok ({| cd_title := rd_title rawData;
                 cd_isBackMatter := rd_isBackMatter rawData;
                 cd_isFrontMatter := rd_isBoilerplate rawData;
                 cd_nuggets :=
                   mapi (make_nugget chapterIndex locationLabel) filteredNuggets |},
              usage)
        end
    end
  end.

(** The revision of the service with five parameters
    (src/services/geminiService.ts, the path the import of App.tsx names):
    no type filter, and [isFrontMatter] in the schema. Called with the six
    arguments of App.tsx it receives [analyzeBoilerplate] as
    [analyzeFrontMatter] and never reads the selection. *)
Module V1.
Definition scanChapterForNuggets (reply : ServiceReply)
    (chapterText : option string) (chapterIndex : nat)
    (locationLabel : option string)
    (analyzeBackMatter analyzeFrontMatter : bool) : Result (ChapterData * Usage) :=
  match reply with
  | Rejected => Throw ServiceError
  | Replied response =>
    let usage := usage_of response in
    match parse_body response with
    | Throw e => Throw e
    | Ok rawData =>
      let skipBecauseBackMatter :=
        truthy (rd_isBackMatter rawData) && negb analyzeBackMatter in
      let skipBecauseFrontMatter :=
        truthy (rd_isFrontMatter rawData) && negb analyzeFrontMatter in
      if skipBecauseBackMatter || skipBecauseFrontMatter then
        Ok ({| cd_title := rd_title rawData;
               cd_isBackMatter := Some (truthy (rd_isBackMatter rawData));
               cd_isFrontMatter := Some (truthy (rd_isFrontMatter rawData));
               cd_nuggets := [] |}, usage)
      else
        match rd_nuggets rawData with
        | None => Throw TypeError
        | Some nuggets =>
          Ok ({| cd_title := rd_title rawData;
                 cd_isBackMatter := rd_isBackMatter rawData;
                 cd_isFrontMatter := rd_isFrontMatter rawData;
                 cd_nuggets := mapi (make_nugget chapterIndex locationLabel) nuggets |},
              usage)
        end
    end
  end.
End V1.

(** ** services/bookParser.ts *)

(** String helpers of the JavaScript runtime, on ASCII text. *)
Definition is_white_space (c : ascii) : bool :=
  let n := nat_of_ascii c in
  ((n =? 9) || (n =? 10) || (n =? 11) || (n =? 12) || (n =? 13) || (n =? 32))%nat.

Fixpoint trim_start (s : string) : string :=
  match s with
  | String c s' => if is_white_space c then trim_start s' else s
  | EmptyString => EmptyString
  end.

(** [String.prototype.trim] *)
Definition js_trim (s : string) : string :=
  String.rev (trim_start (String.rev (trim_start s))).

Definition lower_ascii (c : ascii) : ascii :=
  let n := nat_of_ascii c in
  if ((65 <=? n) && (n <=? 90))%nat then ascii_of_nat (n + 32) else c.

(** [String.prototype.toLowerCase] *)
Fixpoint toLowerCase (s : string) : string :=
  match s with
  | String c s' => String (lower_ascii c) (toLowerCase s')
  | EmptyString => EmptyString
  end.

(** [s.endsWith(suffix)] *)
Definition endsWith (s suffix : string) : bool :=
  String.prefix (String.rev suffix) (String.rev s).

(** [s.replace(pat, rep)] with a string pattern: the first occurrence only. *)
Definition replace_first (pat rep s : string) : string :=
  match String.index 0 pat s with
  | Some n =>
      String.substring 0 n s +:+ rep +:+
      String.substring (n + String.length pat)
                       (String.length s - (n + String.length pat)) s
  | None => s
  end.

(** [items.join(sep)] *)
Fixpoint join (sep : string) (l : list string) : string :=
  match l with
  | [] => ""
  | [x] => x
  | x :: l' => x +:+ sep +:+ join sep l'
  end.

Definition newline2 : string := String "010" (String "010" EmptyString).

(** A loaded PDF: for each page, the [str] of each text item. *)
Record PdfDocument := mkPdf { pdf_pages : list (list (option string)) }.
Definition numPages (pdf : PdfDocument) : nat := length (pdf_pages pdf).

(** [textContent.items.map(item => item.str || '').join(' ') + '\n\n'] for
    page [p] (pages count from 1). *)
Definition page_text (pdf : PdfDocument) (p : nat) : string :=
  let items := default [] (pdf_pages pdf !! (p - 1)) in
  join " " (default "" <$> items) +:+ newline2.

Record ParseResult := mkParseResult {
  pr_title : string;
  pr_chunks : list string;
  pr_locations : list string
}.

(** The outer loop of [parsePdf]: [for (let i = 1; i <= pdf.numPages; i += 3)]. *)
Equations parsePdf_loop (pdf : PdfDocument) (i : nat)
    (chunks locations : list string) : list string * list string
    by wf (S (numPages pdf) - i) lt :=
  parsePdf_loop pdf i chunks locations with decide (i ≤ numPages pdf)%nat := {
    | left _ =>
        let end_ := Nat.min (i + 2) (numPages pdf) in
        let chunkText :=
          fold_left (λ acc p, acc +:+ page_text pdf p) (seq i (S end_ - i)) "" in
        let location :=
          if (i =? end_)%nat then "Page " +:+ pretty i
          else "Pages " +:+ pretty i +:+ "-" +:+ pretty end_ in
        parsePdf_loop pdf (i + 3) (chunks ++ [chunkText]) (locations ++ [location])
    | right _ => (chunks, locations)
  }.
Next Obligation. lia. Qed.

Definition parsePdf (name : string) (pdf : PdfDocument) : ParseResult :=
  let '(chunks, locations) := parsePdf_loop pdf 1 [] [] in
  mkParseResult (replace_first ".pdf" "" name) chunks locations.

(** An entry of the archive: its name and the text of the body of the parsed
    markup ([doc.body.innerText || doc.body.textContent || '']). *)
Record ZipEntry := mkZipEntry { ze_name : string; ze_text : string }.

(** The default comparator of [Array.prototype.sort] on strings. *)
Definition compare_names (a b : ZipEntry) : Z :=
  match String.compare (ze_name a) (ze_name b) with
  | Lt => (-1)%Z
  | Eq => 0%Z
  | Gt => 1%Z
  end.

(** One iteration of [for (const name of fileNames)]. *)
Definition parseEpub_step (acc : list string * list string * nat) (e : ZipEntry)
    : list string * list string * nat :=
  let '(chunks, locations, count) := acc in
  if endsWith (ze_name e) ".xhtml" || endsWith (ze_name e) ".html" then
    if (100 <? String.length (js_trim (ze_text e)))%nat then
      (chunks ++ [ze_text e], locations ++ ["Section " +:+ pretty (S count)], S count)
    else acc
  else acc.

Definition parseEpub (name : string) (files : list ZipEntry) : ParseResult :=
  let fileNames := js_sort compare_names files in
  let '(chunks, locations, _) := fold_left parseEpub_step fileNames ([], [], 0) in
  mkParseResult (replace_first ".epub" "" name) chunks locations.

(** An uploaded file: its name, and what pdf.js and JSZip make of its bytes. *)
Record File := mkFile {
  file_name : string;
  file_pdf : Result PdfDocument;
  file_zip : Result (list ZipEntry)
}.

(** The dispatch on the file extension in [handleFileUpload]. *)
Definition parse_upload (f : File) : Result ParseResult :=
  if endsWith (toLowerCase (file_name f)) ".pdf" then
    match file_pdf f with
    | Ok pdf => Ok (parsePdf (file_name f) pdf)
    | Throw e => Throw e
    end
  else if endsWith (toLowerCase (file_name f)) ".epub" then
    match file_zip f with
    | Ok files => Ok (parseEpub (file_name f) files)
    | Throw e => Throw e
    end
  else Throw FormatError.

(** [calculateCost], in IEEE 754 doubles as in JavaScript. *)
Definition COST_PER_1M_INPUT : float := 0.075%float.
Definition COST_PER_1M_OUTPUT : float := 0.30%float.

Definition number_of_nat (n : nat) : float :=
  PrimFloat.of_uint63 (Uint63.of_Z (Z.of_nat n)).

Definition calculateCost (inputTokens outputTokens : nat) : float :=
  (number_of_nat inputTokens / 1000000 * COST_PER_1M_INPUT +
   number_of_nat outputTokens / 1000000 * COST_PER_1M_OUTPUT)%float.

(** ** App.tsx: the component state *)

Record UsageStats := mkUsageStats {
  totalInputTokens : nat;
  totalOutputTokens : nat;
  estimatedCost : float
}.

Definition zeroStats : UsageStats := mkUsageStats 0 0 0%float.

(** The update both completion handlers pass to [setStats]. *)
Definition addUsage (prev : UsageStats) (usage : Usage) : UsageStats :=
  let newCost := calculateCost (us_input usage) (us_output usage) in
  {| totalInputTokens := totalInputTokens prev + us_input usage;
     totalOutputTokens := totalOutputTokens prev + us_output usage;
     estimatedCost := (estimatedCost prev + newCost)%float |}.

(** The value stored under the storage key (the JSON text of this object). *)
Record Snapshot := mkSnapshot {
  sn_chapterIndex : nat;
  sn_notes : list NoteItem;
  sn_stats : UsageStats
}.

(** What the callbacks [analyzeChapter] and [prefetchNext] of one render
    capture: the book (checked non-null on entry) and the three filters. *)
Record Closure := mkClosure {
  cl_book : Book;
  cl_analyzeBackMatter : bool;
  cl_analyzeBoilerplate : bool;
  cl_selectedNuggetTypes : list NuggetType
}.

Inductive RequestKind := Direct | Prefetch.

#[global] Instance RequestKind_eq_dec : EqDecision RequestKind.
Proof. solve_decision. Defined.

(** A call of [scanChapterForNuggets] whose promise is pending, with the
    index and the closure its continuation resumes in. *)
Record Request := mkRequest {
  rq_kind : RequestKind;
  rq_index : nat;
  rq_closure : Closure
}.

(** A pending [setTimeout(() => prefetchNext(index + 1), 500)]; [tm_index]
    is the argument of [prefetchNext]. *)
Record Timer := mkTimer {
  tm_index : nat;
  tm_closure : Closure
}.

(** The [useState] slots the pipeline reads, the two [useRef] cells, the
    local key-value store, and the suspended continuations. *)
Record State := mkState {
  book : option Book;
  currentChapterIndex : nat;
  currentChapterData : option ChapterData;
  notes : list NoteItem;
  isProcessing : bool;
  isAnalyzing : bool;
  error : option string;
  stats : UsageStats;
  analyzeBackMatter : bool;
  analyzeBoilerplate : bool;
  selectedNuggetTypes : list NuggetType;
  cachedChapters : gmap nat ChapterData;
  isPrefetching : bool;
  localStorage : gmap string Snapshot;
  pending : list Request;
  timers : list Timer
}.

Definition set_book v s := mkState v (currentChapterIndex s) (currentChapterData s)
  (notes s) (isProcessing s) (isAnalyzing s) (error s) (stats s) (analyzeBackMatter s)
  (analyzeBoilerplate s) (selectedNuggetTypes s) (cachedChapters s) (isPrefetching s)
  (localStorage s) (pending s) (timers s).
Definition set_currentChapterIndex v s := mkState (book s) v (currentChapterData s)
  (notes s) (isProcessing s) (isAnalyzing s) (error s) (stats s) (analyzeBackMatter s)
  (analyzeBoilerplate s) (selectedNuggetTypes s) (cachedChapters s) (isPrefetching s)
  (localStorage s) (pending s) (timers s).
Definition set_currentChapterData v s := mkState (book s) (currentChapterIndex s) v
  (notes s) (isProcessing s) (isAnalyzing s) (error s) (stats s) (analyzeBackMatter s)
  (analyzeBoilerplate s) (selectedNuggetTypes s) (cachedChapters s) (isPrefetching s)
  (localStorage s) (pending s) (timers s).
Definition set_notes v s := mkState (book s) (currentChapterIndex s) (currentChapterData s)
  v (isProcessing s) (isAnalyzing s) (error s) (stats s) (analyzeBackMatter s)
  (analyzeBoilerplate s) (selectedNuggetTypes s) (cachedChapters s) (isPrefetching s)
  (localStorage s) (pending s) (timers s).
Definition set_isProcessing v s := mkState (book s) (currentChapterIndex s) (currentChapterData s)
  (notes s) v (isAnalyzing s) (error s) (stats s) (analyzeBackMatter s)
  (analyzeBoilerplate s) (selectedNuggetTypes s) (cachedChapters s) (isPrefetching s)
  (localStorage s) (pending s) (timers s).
Definition set_isAnalyzing v s := mkState (book s) (currentChapterIndex s) (currentChapterData s)
  (notes s) (isProcessing s) v (error s) (stats s) (analyzeBackMatter s)
  (analyzeBoilerplate s) (selectedNuggetTypes s) (cachedChapters s) (isPrefetching s)
  (localStorage s) (pending s) (timers s).
Definition set_error v s := mkState (book s) (currentChapterIndex s) (currentChapterData s)
  (notes s) (isProcessing s) (isAnalyzing s) v (stats s) (analyzeBackMatter s)
  (analyzeBoilerplate s) (selectedNuggetTypes s) (cachedChapters s) (isPrefetching s)
  (localStorage s) (pending s) (timers s).
Definition set_stats v s := mkState (book s) (currentChapterIndex s) (currentChapterData s)
  (notes s) (isProcessing s) (isAnalyzing s) (error s) v (analyzeBackMatter s)
  (analyzeBoilerplate s) (selectedNuggetTypes s) (cachedChapters s) (isPrefetching s)
  (localStorage s) (pending s) (timers s).
Definition set_analyzeBackMatter v s := mkState (book s) (currentChapterIndex s) (currentChapterData s)
  (notes s) (isProcessing s) (isAnalyzing s) (error s) (stats s) v
  (analyzeBoilerplate s) (selectedNuggetTypes s) (cachedChapters s) (isPrefetching s)
  (localStorage s) (pending s) (timers s).
Definition set_analyzeBoilerplate v s := mkState (book s) (currentChapterIndex s) (currentChapterData s)
  (notes s) (isProcessing s) (isAnalyzing s) (error s) (stats s) (analyzeBackMatter s)
  v (selectedNuggetTypes s) (cachedChapters s) (isPrefetching s)
  (localStorage s) (pending s) (timers s).
Definition set_selectedNuggetTypes v s := mkState (book s) (currentChapterIndex s) (currentChapterData s)
  (notes s) (isProcessing s) (isAnalyzing s) (error s) (stats s) (analyzeBackMatter s)
  (analyzeBoilerplate s) v (cachedChapters s) (isPrefetching s)
  (localStorage s) (pending s) (timers s).
Definition set_cachedChapters v s := mkState (book s) (currentChapterIndex s) (currentChapterData s)
  (notes s) (isProcessing s) (isAnalyzing s) (error s) (stats s) (analyzeBackMatter s)
  (analyzeBoilerplate s) (selectedNuggetTypes s) v (isPrefetching s)
  (localStorage s) (pending s) (timers s).
Definition set_isPrefetching v s := mkState (book s) (currentChapterIndex s) (currentChapterData s)
  (notes s) (isProcessing s) (isAnalyzing s) (error s) (stats s) (analyzeBackMatter s)
  (analyzeBoilerplate s) (selectedNuggetTypes s) (cachedChapters s) v
  (localStorage s) (pending s) (timers s).
Definition set_localStorage v s := mkState (book s) (currentChapterIndex s) (currentChapterData s)
  (notes s) (isProcessing s) (isAnalyzing s) (error s) (stats s) (analyzeBackMatter s)
  (analyzeBoilerplate s) (selectedNuggetTypes s) (cachedChapters s) (isPrefetching s)
  v (pending s) (timers s).
Definition set_pending v s := mkState (book s) (currentChapterIndex s) (currentChapterData s)
  (notes s) (isProcessing s) (isAnalyzing s) (error s) (stats s) (analyzeBackMatter s)
  (analyzeBoilerplate s) (selectedNuggetTypes s) (cachedChapters s) (isPrefetching s)
  (localStorage s) v (timers s).
Definition set_timers v s := mkState (book s) (currentChapterIndex s) (currentChapterData s)
  (notes s) (isProcessing s) (isAnalyzing s) (error s) (stats s) (analyzeBackMatter s)
  (analyzeBoilerplate s) (selectedNuggetTypes s) (cachedChapters s) (isPrefetching s)
  (localStorage s) (pending s) v.

(** The state of a freshly mounted component over a given store. *)
Definition initialState (store : gmap string Snapshot) : State :=
  {| book := None; currentChapterIndex := 0; currentChapterData := None;
     notes := []; isProcessing := false; isAnalyzing := false; error := None;
     stats := zeroStats; analyzeBackMatter := false; analyzeBoilerplate := false;
     selectedNuggetTypes := [QUOTE; LEARNING; INSIGHT];
     cachedChapters := ∅; isPrefetching := false; localStorage := store;
     pending := []; timers := [] |}.

(** [book.title.replace(/\s/g, '_')] *)
Fixpoint replace_spaces (s : string) : string :=
  match s with
  | String c s' => String (if is_white_space c then "_"%char else c) (replace_spaces s')
  | EmptyString => EmptyString
  end.

Definition storageKey (s : State) : option string :=
  (λ b, "manan_progress_" +:+ replace_spaces (bk_title b)) <$> book s.

Definition closure_of (r : State) (b : Book) : Closure :=
  mkClosure b (analyzeBackMatter r) (analyzeBoilerplate r) (selectedNuggetTypes r).

(** ** App.tsx: the callbacks *)

(** [analyzeChapter(index)] as created by the render [r], up to its [await].
    It reads the cache cell live and everything else from [r]; [s] is the
    state the surrounding handler or effect has built so far. *)
Definition analyzeChapter (r : State) (index : nat) (s : State) : State :=
  match book r with
  | None => s
  | Some b =>
    match cachedChapters s !! index with
    | Some data =>
        set_timers (timers s ++ [mkTimer (index + 1) (closure_of r b)])
          (set_currentChapterData (Some data) s)
    | None =>
        set_pending (pending s ++ [mkRequest Direct index (closure_of r b)])
          (set_error None (set_isAnalyzing true s))
    end
  end.

(** The call both callbacks make, once the service has replied. The six
    arguments are those of the call sites, and the callee is the revision
    that has six parameters. What depends on the type filter of that
    revision is stated for the five-parameter one as well. *)
Definition scan_for (rq_index : nat) (cl : Closure) (reply : ServiceReply)
    : Result (ChapterData * Usage) :=
  scanChapterForNuggets reply
    (bk_chapters (cl_book cl) !! rq_index) rq_index
    (bk_chapterLocations (cl_book cl) !! rq_index)
    (cl_analyzeBackMatter cl) (cl_analyzeBoilerplate cl)
    (cl_selectedNuggetTypes cl).

Definition analysis_failed : string :=
  "Analysis failed. Please check your internet connection and API key.".

(** [analyzeChapter] after its [await]: the [try] body, [catch] and [finally]. *)
Definition analyzeChapter_resume (index : nat) (cl : Closure)
    (reply : ServiceReply) (s : State) : State :=
  match scan_for index cl reply with
  | Ok (data, usage) =>
      set_isAnalyzing false
        (set_timers (timers s ++ [mkTimer (index + 1) cl])
          (set_stats (addUsage (stats s) usage)
            (set_cachedChapters (<[index := data]> (cachedChapters s))
              (set_currentChapterData (Some data) s))))
  | Throw _ =>
      set_isAnalyzing false (set_error (Some analysis_failed) s)
  end.

(** [prefetchNext(index)] up to its [await]. *)
Definition prefetchNext (cl : Closure) (index : nat) (s : State) : State :=
  if bool_decide (length (bk_chapters (cl_book cl)) ≤ index)
     || bool_decide (is_Some (cachedChapters s !! index))
     || isPrefetching s
  then s
  else set_pending (pending s ++ [mkRequest Prefetch index cl])
         (set_isPrefetching true s).

(** [prefetchNext] after its [await]. *)
Definition prefetchNext_resume (index : nat) (cl : Closure)
    (reply : ServiceReply) (s : State) : State :=
  match scan_for index cl reply with
  | Ok (data, usage) =>
      set_isPrefetching false
        (set_stats (addUsage (stats s) usage)
          (set_cachedChapters (<[index := data]> (cachedChapters s)) s))
  | Throw _ => set_isPrefetching false s
  end.

(** [handleFileUpload], before and after [await parse...]. *)
Definition handleFileUpload_begin (s : State) : State :=
  set_cachedChapters ∅ (set_error None (set_isProcessing true s)).

(** [err.message || 'Error parsing book'] *)
Definition upload_error_message (e : JsError) : string :=
  match e with
  | FormatError => "Unsupported format. Please upload PDF or EPUB."
  | _ => "Error parsing book"
  end.

Definition handleFileUpload_end (f : File) (s : State) : State :=
  set_isProcessing false
    match parse_upload f with
    | Ok result =>
        set_currentChapterIndex 0
          (set_book (Some (mkBook (pr_title result) (pr_chunks result)
                                  (pr_locations result))) s)
    | Throw e => set_error (Some (upload_error_message e)) s
    end.

(** The comparator of the ledger: by chapter, then by rank in the chapter. *)
Definition compare_notes (a b : NoteItem) : Z :=
  if bool_decide (nt_chapterIndex a ≠ nt_chapterIndex b)
  then (Z.of_nat (nt_chapterIndex a) - Z.of_nat (nt_chapterIndex b))%Z
  else (Z.of_nat (nt_sortIndex a) - Z.of_nat (nt_sortIndex b))%Z.

(** [currentChapterData?.title || `Section ${currentChapterIndex + 1}`] *)
Definition chapterTitle_for (s : State) : string :=
  match currentChapterData s ≫= cd_title with
  | Some t => if bool_decide (t = "") then "Section " +:+ pretty (currentChapterIndex s + 1) else t
  | None => "Section " +:+ pretty (currentChapterIndex s + 1)
  end.

Definition newNote_of (nugget : BookNugget) (s : State) : NoteItem :=
  {| nt_id := bn_id nugget;
     nt_content := bn_content nugget;
     nt_type := bn_type nugget;
     nt_chapterTitle := chapterTitle_for s;
     nt_chapterIndex := currentChapterIndex s;
     nt_sortIndex := bn_sortIndex nugget;
     nt_locationLabel := bn_locationLabel nugget;
     nt_tags := default [] (bn_tags nugget);
     nt_source := bn_source nugget |}.

Definition toggleNote (nugget : BookNugget) (s : State) : State :=
  match List.find (λ n, bool_decide (nt_id n = bn_id nugget)) (notes s) with
  | Some _ =>
      set_notes (filter (λ n, nt_id n ≠ bn_id nugget) (notes s)) s
  | None =>
      set_notes (js_sort compare_notes (notes s ++ [newNote_of nugget s])) s
  end.

Definition nugget_with_tags (tags : list string) (n : BookNugget) : BookNugget :=
  mkBookNugget (bn_id n) (bn_type n) (bn_content n) (bn_source n)
               (bn_locationLabel n) (bn_sortIndex n) (Some tags).

Definition note_with_tags (tags : list string) (n : NoteItem) : NoteItem :=
  mkNoteItem (nt_id n) (nt_content n) (nt_type n) (nt_chapterTitle n)
             (nt_chapterIndex n) (nt_sortIndex n) (nt_locationLabel n) tags
             (nt_source n).

Definition updateNuggetTags (nuggetId : string) (tags : list string) (s : State) : State :=
  let s1 :=
    match currentChapterData s with
    | Some cd =>
        let updatedNuggets :=
          (λ n, if bool_decide (bn_id n = nuggetId) then nugget_with_tags tags n else n)
            <$> cd_nuggets cd in
        set_currentChapterData
          (Some (mkChapterData (cd_title cd) updatedNuggets
                               (cd_isBackMatter cd) (cd_isFrontMatter cd))) s
    | None => s
    end in
  set_notes ((λ n, if bool_decide (nt_id n = nuggetId) then note_with_tags tags n else n)
               <$> notes s) s1.

(** The tags of
    [currentChapterData?.nuggets.find(...) || notes.find(...)], if found. *)
Definition currentTags_of (nuggetId : string) (s : State) : option (list string) :=
  match currentChapterData s ≫=
        (λ cd, List.find (λ n, bool_decide (bn_id n = nuggetId)) (cd_nuggets cd)) with
  | Some n => Some (default [] (bn_tags n))
  | None =>
      nt_tags <$> List.find (λ n, bool_decide (nt_id n = nuggetId)) (notes s)
  end.

(** [tagInput.trim().replace(/^#/, '')] *)
Definition clean_tag (tagInput : string) : string :=
  match js_trim tagInput with
  | String "#" rest => rest
  | t => t
  end.

Definition handleAddTag (nuggetId tagInput : string) (s : State) : State :=
  if bool_decide (js_trim tagInput = "") then s
  else
    let cleanTag := clean_tag tagInput in
    match currentTags_of nuggetId s with
    | Some currentTags =>
        if bool_decide (cleanTag ∈ currentTags) then s
        else updateNuggetTags nuggetId (currentTags ++ [cleanTag]) s
    | None => s
    end.

Definition removeTag (nuggetId tagToRemove : string) (s : State) : State :=
  match currentTags_of nuggetId s with
  | Some currentTags =>
      updateNuggetTags nuggetId (filter (λ t, t ≠ tagToRemove) currentTags) s
  | None => s
  end.

Definition toggleNuggetTypePreference (type : NuggetType) (s : State) : State :=
  let next :=
    if bool_decide (type ∈ selectedNuggetTypes s)
    then filter (λ t, t ≠ type) (selectedNuggetTypes s)
    else selectedNuggetTypes s ++ [type] in
  analyzeChapter s (currentChapterIndex s)
    (set_cachedChapters ∅ (set_selectedNuggetTypes next s)).

(** The click handlers of the Metadata and Back-Matter switches. *)
Definition toggleBoilerplate (s : State) : State :=
  set_cachedChapters ∅ (set_analyzeBoilerplate (negb (analyzeBoilerplate s)) s).

Definition toggleBackMatter (s : State) : State :=
  set_cachedChapters ∅ (set_analyzeBackMatter (negb (analyzeBackMatter s)) s).

Definition reset (s : State) : State :=
  set_stats zeroStats
    (set_cachedChapters ∅
      (set_currentChapterData None
        (set_currentChapterIndex 0
          (set_notes [] (set_book None s))))).

(** [downloadNotes]; the Markdown it builds leaves the component as a file
    and is not part of the state. [confirmed] is the answer to [confirm]. *)
Definition downloadNotes (confirmed : bool) (s : State) : State :=
  if bool_decide (length (notes s) = 0) then s
  else if confirmed then
    reset match storageKey s with
          | Some k => set_localStorage (delete k (localStorage s)) s
          | None => s
          end
  else s.

Definition jumpToChapter (index : nat) (s : State) : State :=
  set_currentChapterIndex index s.

(** ** App.tsx: rendering and effects *)

(** The value of the dependency array of the analysis effect,
    [[book, currentChapterIndex, analyzeChapter]]: [analyzeChapter] is
    re-created exactly when the book or one of the three filters changes.
    A new book is only ever set over [null], and a type toggle always yields
    a list of another length, so comparing these values detects the same
    changes as comparing references. *)
Definition analyze_deps (s : State)
    : option Book * nat * bool * bool * list NuggetType :=
  (book s, currentChapterIndex s, analyzeBackMatter s, analyzeBoilerplate s,
   selectedNuggetTypes s).

Definition snapshot_of (s : State) : Snapshot :=
  mkSnapshot (currentChapterIndex s) (notes s) (stats s).

(** The effects of one committed render [cur] that follows the render
    [prev], in source order, and the state updates they queue.
    - The load effect (keyed on [storageKey]) reads the saved snapshot.
    - The save effect writes the values of [cur]. What it writes is a
      function of its dependencies, and after a step the store holds just
      that ([saved_snapshot_is_current]), so it is run at every commit.
    - The analysis effect (keyed on [analyze_deps]) calls [analyzeChapter]
      unless [isAnalyzing] was set in [cur]. *)
(** The body of the save effect, [if (storageKey && book) setItem(...)]. *)
Definition persist (cur : State) : State :=
  match storageKey cur with
  | Some k => set_localStorage (<[k := snapshot_of cur]> (localStorage cur)) cur
  | None => cur
  end.

Definition effects (prev cur : State) : State :=
  let saved :=
    if bool_decide (storageKey prev = storageKey cur) then None
    else storageKey cur ≫= (λ k, localStorage cur !! k) in
  let s1 := persist cur in
  let s2 :=
    if bool_decide (analyze_deps prev = analyze_deps cur) then s1
    else if isAnalyzing cur then s1
    else analyzeChapter cur (currentChapterIndex cur) s1 in
  match saved with
  | Some parsed =>
      set_stats (sn_stats parsed)
        (set_notes (sn_notes parsed)
          (set_currentChapterIndex (sn_chapterIndex parsed) s2))
  | None => s2
  end.

(** Committing the result [next] of a handler that ran in the render [prev]:
    the effects run, and once more for the render their updates cause. *)
Definition commit (prev next : State) : State :=
  let r := effects prev next in
  effects next r.

(** ** Events *)

Inductive Event :=
  | UploadBegin
  | UploadEnd (f : File)
  | JumpToChapter (index : nat)
  | ToggleBoilerplate
  | ToggleBackMatter
  | ToggleNuggetType (type : NuggetType)
  | ToggleNote (nugget : BookNugget)
  | UpdateNuggetTags (nuggetId : string) (tags : list string)
  | AddTag (nuggetId tagInput : string)
  | RemoveTag (nuggetId tag : string)
  | DownloadNotes (confirmed : bool)
  | Reset
  | Resolve (k : nat) (reply : ServiceReply)   (* the k-th pending call settles *)
  | TimerFire (k : nat).                       (* the k-th pending timer fires *)

(** The handler or continuation an event runs, before the commit. *)
Definition handle (e : Event) (s : State) : State :=
  match e with
  | UploadBegin => handleFileUpload_begin s
  | UploadEnd f => handleFileUpload_end f s
  | JumpToChapter i => jumpToChapter i s
  | ToggleBoilerplate => toggleBoilerplate s
  | ToggleBackMatter => toggleBackMatter s
  | ToggleNuggetType t => toggleNuggetTypePreference t s
  | ToggleNote n => toggleNote n s
  | UpdateNuggetTags i tags => updateNuggetTags i tags s
  | AddTag i input => handleAddTag i input s
  | RemoveTag i tag => removeTag i tag s
  | DownloadNotes c => downloadNotes c s
  | Reset => reset s
  | Resolve k reply =>
      match pending s !! k with
      | Some rq =>
          let s' := set_pending (delete k (pending s)) s in
          match rq_kind rq with
          | Direct => analyzeChapter_resume (rq_index rq) (rq_closure rq) reply s'
          | Prefetch => prefetchNext_resume (rq_index rq) (rq_closure rq) reply s'
          end
      | None => s
      end
  | TimerFire k =>
      match timers s !! k with
      | Some tm =>
          prefetchNext (tm_closure tm) (tm_index tm)
            (set_timers (delete k (timers s)) s)
      | None => s
      end
  end.

Definition step (s : State) (e : Event) : State := commit s (handle e s).

Definition run (s : State) (es : list Event) : State := fold_left step es s.

(** The states the component can be in. *)
Inductive reachable (store : gmap string Snapshot) : State → Prop :=
  | reachable_init : reachable store (initialState store)
  | reachable_step s e : reachable store s → reachable store (step s e).

(** When the page offers the control behind an event: the file input exists
    while no book is open and is disabled while processing; the navigation
    and filter controls and the cards exist while a book is open; Back and
    Next are disabled while analyzing, the slider and the Book Map are not. *)
Definition offered (s : State) (e : Event) : bool :=
  match e with
  | UploadBegin => bool_decide (book s = None) && negb (isProcessing s)
  | UploadEnd _ => isProcessing s
  | JumpToChapter i =>
      match book s with
      | Some b => bool_decide (i < length (bk_chapterLocations b))
      | None => false
      end
  | ToggleBoilerplate | ToggleBackMatter | ToggleNuggetType _ =>
      bool_decide (is_Some (book s))
  | ToggleNote n =>
      bool_decide (is_Some (book s)) &&
      (bool_decide (n ∈ default [] (cd_nuggets <$> currentChapterData s))
       || bool_decide (bn_id n ∈ nt_id <$> notes s))
  | UpdateNuggetTags i _ | AddTag i _ | RemoveTag i _ =>
      bool_decide (i ∈ bn_id <$> default [] (cd_nuggets <$> currentChapterData s))
  | DownloadNotes _ | Reset => bool_decide (is_Some (book s))
  | Resolve k _ => bool_decide (k < length (pending s))
  | TimerFire k => bool_decide (k < length (timers s))
  end.

Fixpoint offered_all (s : State) (es : list Event) : bool :=
  match es with
  | [] => true
  | e :: es' => offered s e && offered_all (step s e) es'
  end.

(** ** A sample session

    A seven-page PDF, hence three segments, and replies of the service. *)

Definition sample_pdf : PdfDocument :=
  mkPdf [[Some "It"; None; Some "was"]; [Some "the"]; []; [Some "best"]; [];
         [Some "of"]; [Some "times"]].

Definition sample_file : File :=
  mkFile "My Book.pdf" (Ok sample_pdf) (Throw SyntaxError).

Definition sample_raw (title content : string) : RawData :=
  mkRawData (Some title) (Some false) None (Some false)
    (Some [mkRawNugget "n0" "quote" content (Some "Dickens");
           mkRawNugget "n1" "insight" "Y" None]).

Definition sample_reply (title content : string) : ServiceReply :=
  Replied (mkResponse (TextObject (sample_raw title content))
                      (Some (mkUsageMetadata 100 20))).

(** The book is open and the analysis of segment 0 is in flight. *)
Definition sample_opened : State :=
  run (initialState ∅) [UploadBegin; UploadEnd sample_file].

(** Segment 0 is analysed and displayed. *)
Definition sample_displayed : State :=
  step sample_opened (Resolve 0 (sample_reply "One" "X")).

(** The nugget [c0_n0] as segment 0 displays it after that reply. *)
Definition sample_nugget (content : string) : BookNugget :=
  mkBookNugget "c0_n0" "quote" content (Some "Dickens") (Some "Pages 1-3") 0 None.

(** The sample session after the reader has switched quotes off and the
    back-matter switch on: segment 0 is being fetched for learnings and
    insights only. *)
Definition sample_filtered : State :=
  run sample_displayed
    [ToggleNuggetType QUOTE; Resolve 0 (sample_reply "One" "X"); ToggleBackMatter].

(** The request that is pending in [sample_opened]. *)
Definition sample_request : Request :=
  mkRequest Direct 0
    (mkClosure (mkBook "My Book" (pr_chunks (parsePdf "My Book.pdf" sample_pdf))
                       (pr_locations (parsePdf "My Book.pdf" sample_pdf)))
               false false [QUOTE; LEARNING; INSIGHT]).

(** The second nugget of segment 0 as displayed. *)
Definition sample_nugget1 : BookNugget :=
  mkBookNugget "c0_n1" "insight" "Y" None (Some "Pages 1-3") 1 None.

(** An archive with a package document and a one-line cover page. *)
Definition sample_epub : File :=
  mkFile "Thin.epub" (Throw SyntaxError)
    (Ok [mkZipEntry "mimetype" "application/epub+zip";
         mkZipEntry "META-INF/container.xml" "";
         mkZipEntry "OEBPS/content.opf" "";
         mkZipEntry "OEBPS/cover.xhtml" "Thin"]).

(** A reply that classifies the segment as back matter. *)
Definition backmatter_reply : ServiceReply :=
  Replied (mkResponse
    (TextObject (mkRawData (Some "Index") (Some false) None (Some true)
                   (Some [mkRawNugget "n0" "quote" "X" None;
                          mkRawNugget "n1" "insight" "Y" None])))
    (Some (mkUsageMetadata 100 20))).

(** A reply whose body is not JSON. *)
Definition malformed_reply : ServiceReply :=
  Replied (mkResponse TextMalformed (Some (mkUsageMetadata 100 0))).

(** ** Predicates used in the statements *)

(** The number of pending extraction requests for segment [i]. *)
Definition in_flight (i : nat) (s : State) : nat :=
  length (filter (λ rq, rq_index rq = i) (pending s)).

(** The number of pending speculative requests. *)
Definition prefetches_in_flight (s : State) : nat :=
  length (filter (λ rq, rq_kind rq = Prefetch) (pending s)).

(** The prefetch-busy cell is set exactly while a speculative request is
    pending. *)
Definition prefetch_inv (s : State) : Prop :=
  prefetches_in_flight s = if isPrefetching s then 1 else 0.

(** The handlers that neither issue nor settle a request. *)
Definition plain_event (e : Event) : bool :=
  match e with
  | ToggleNuggetType _ | Resolve _ _ | TimerFire _ => false
  | _ => true
  end.

(** The ledger order: no note compares smaller than a note before it. *)
Definition ledger_sorted (l : list NoteItem) : Prop :=
  StronglySorted (λ a b, (0 ≤ compare_notes b a)%Z) l.

(** An entry of the archive that [parseEpub] turns into a segment. *)
Definition epub_section (e : ZipEntry) : Prop :=
  (endsWith (ze_name e) ".xhtml" || endsWith (ze_name e) ".html") = true ∧
  100 < String.length (js_trim (ze_text e)).

#[global] Instance epub_section_dec e : Decision (epub_section e).
Proof. unfold epub_section. apply _. Defined.

(** The outcome the specification asks for on a bad body: an empty result
    and no usage. *)
Definition empty_success (r : Result (ChapterData * Usage)) : Prop :=
  ∃ data, r = Ok (data, mkUsage 0 0) ∧ cd_nuggets data = [].

(** ** services/bookParser.ts: [chunkText] *)

(** [text.indexOf(pat, from)]; [None] is -1. *)
Definition indexOf (pat : string) (from : nat) (text : string) : option nat :=
  String.index from pat text.

(** [text.slice(start, end)] for [start <= end]. *)
Definition js_slice (start end_ : nat) (text : string) : string :=
  String.substring start (end_ - start) text.

(** The [while] loop of [chunkText]. The loop need not end (it does not for
    [chunkSize = 0]), so the model counts iterations down from [fuel] and
    answers [None] when they run out. *)
Fixpoint chunkText_loop (fuel : nat) (text : string) (chunkSize : nat)
    (startIndex : nat) (chunks : list string) : option (list string) :=
  match fuel with
  | 0 => None
  | S fuel' =>
    if startIndex <? String.length text then
      let endIndex := startIndex + chunkSize in
      let endIndex :=
        if endIndex <? String.length text then
          match indexOf newline2 endIndex text with
          | Some nextNewline =>
              if nextNewline <? endIndex + 1000 then nextNewline else endIndex
          | None => endIndex
          end
        else endIndex in
      chunkText_loop fuel' text chunkSize endIndex
        (chunks ++ [js_slice startIndex endIndex text])
    else Some chunks
  end.

Definition chunkText (fuel : nat) (text : string) (chunkSize : nat)
    : option (list string) :=
  chunkText_loop fuel text chunkSize 0 [].

(** ** App.tsx: the context of a search *)

(** [items.slice(start, end)] for [0 ≤ start] and [0 ≤ end]. *)
Definition slice {A} (start end_ : nat) (l : list A) : list A :=
  take (end_ - start) (drop start l).

(** [handleSearch]: the segments sent to [recallSearch] as context. On
    naturals [currentChapterIndex - 2] is [Math.max(0, currentChapterIndex - 2)]. *)
Definition chunksToSearch (b : Book) (currentChapterIndex : nat) : list string :=
  let start := currentChapterIndex - 2 in
  let end_ := Nat.min (length (bk_chapters b)) (currentChapterIndex + 3) in
  slice start end_ (bk_chapters b).

(** ** App.tsx: the export

    [downloadNotes] builds its Markdown in an object literal used as a map
    from chapter titles to notes. [downloadNotes] above describes the change
    of state once the text is built; what follows is the text, and when
    building it fails. *)

(** The property names the empty object literal inherits from
    [Object.prototype]. Reading one of them yields a function, or the
    prototype itself for [__proto__]: a value that is truthy and has no
    [push]. *)
Definition prototype_names : list string :=
  ["constructor"; "__defineGetter__"; "__defineSetter__"; "hasOwnProperty";
   "__lookupGetter__"; "__lookupSetter__"; "isPrototypeOf";
   "propertyIsEnumerable"; "toString"; "valueOf"; "__proto__";
   "toLocaleString"].

(** [if (!grouped[t]) grouped[t] = []; grouped[t].push(n)] for a title [t]
    that [grouped] holds or that is not inherited; the own properties of
    [grouped] are kept in the order of their creation. *)
Fixpoint group_push (n : NoteItem) (grouped : list (string * list NoteItem))
    : list (string * list NoteItem) :=
  match grouped with
  | [] => [(nt_chapterTitle n, [n])]
  | (title, items) :: rest =>
      if bool_decide (title = nt_chapterTitle n) then (title, items ++ [n]) :: rest
      else (title, items) :: group_push n rest
  end.

(** One call of the callback of [notes.forEach]. *)
Definition group_step (acc : Result (list (string * list NoteItem))) (n : NoteItem)
    : Result (list (string * list NoteItem)) :=
  match acc with
  | Ok grouped =>
      if bool_decide (nt_chapterTitle n ∈ prototype_names) then Throw TypeError
      else Ok (group_push n grouped)
  | Throw e => Throw e
  end.

Definition group_notes (notes : list NoteItem)
    : Result (list (string * list NoteItem)) :=
  fold_left group_step notes (Ok []).

(** Decimal digits and the number a string of digits denotes. *)
Definition is_digit (c : ascii) : bool :=
  let n := nat_of_ascii c in ((48 <=? n) && (n <=? 57))%nat.

Fixpoint all_digits (s : string) : bool :=
  match s with
  | String c s' => is_digit c && all_digits s'
  | EmptyString => true
  end.

Definition digit_value (c : ascii) : N := N.of_nat (nat_of_ascii c - 48).

Fixpoint parse_digits (s : string) (acc : N) : N :=
  match s with
  | String c s' => parse_digits s' (acc * 10 + digit_value c)
  | EmptyString => acc
  end.

(** The number a property key stands for when it is an array index: the
    canonical decimal form of an integer below 2^32 - 1. *)
Definition array_index (key : string) : option N :=
  if all_digits key && negb (bool_decide (key = "")) then
    let n := parse_digits key 0 in
    if bool_decide (pretty n = key) && (n <? 4294967295)%N then Some n else None
  else None.

Definition compare_index {V} (a b : string * V) : Z :=
  (Z.of_N (default 0%N (array_index a.1)) - Z.of_N (default 0%N (array_index b.1)))%Z.

(** [Object.keys(o)], each key with its value: the array indices in
    ascending order, then the other keys in the order of their creation. *)
Definition object_entries {V} (o : list (string * V)) : list (string * V) :=
  js_sort compare_index (filter (λ e, is_Some (array_index e.1)) o)
  ++ filter (λ e, ¬ is_Some (array_index e.1)) o.

(** [chunks.join('')] *)
Definition concat_strings (l : list string) : string :=
  foldr String.append "" l.

(** The line the export writes for one note. *)
Definition item_markdown (item : NoteItem) : string :=
  let loc :=
    match nt_locationLabel item with
    | Some l => if bool_decide (l = "") then "" else " (" +:+ l +:+ ")"
    | None => ""
    end in
  let tags :=
    if bool_decide (0 < length (nt_tags item))
    then " " +:+ join " " ((λ t, "#" +:+ t) <$> nt_tags item)
    else "" in
  let source :=
    match nt_source item with
    | Some src => if bool_decide (src = "") then "" else " — " +:+ src
    | None => ""
    end in
  if bool_decide (nt_type item = NuggetType_value QUOTE) then
    "> " +:+ nt_content item +:+ source +:+ loc +:+ tags +:+ newline2
  else if bool_decide (nt_type item = NuggetType_value LEARNING) then
    "* **Key Learning:** " +:+ nt_content item +:+ source +:+ loc +:+ tags
      +:+ newline2
  else "* " +:+ nt_content item +:+ source +:+ loc +:+ tags +:+ newline2.

Definition section_markdown (entry : string * list NoteItem) : string :=
  "## " +:+ entry.1 +:+ newline2 +:+ concat_strings (item_markdown <$> entry.2).

(** The text [downloadNotes] hands to the browser; [title] is
    [book?.title]. *)
Definition notes_markdown (title : option string) (notes : list NoteItem)
    : Result string :=
  match group_notes notes with
  | Ok grouped =>
      Ok ("# Reading Notes: " +:+ default "undefined" title +:+ newline2
          +:+ concat_strings (section_markdown <$> object_entries grouped))
  | Throw e => Throw e
  end.

(** ** Further sample states *)

(** The sample session after segment 1 has been fetched ahead. *)
Definition sample_prefetched : State :=
  run sample_displayed [TimerFire 0; Resolve 0 (sample_reply "Two" "Z")].

(** What a scan of segment [i] makes of [sample_reply title content]. *)
Definition sample_data (i : nat) (title content location : string) : ChapterData :=
  mkChapterData (Some title)
    [mkBookNugget ("c" +:+ pretty i +:+ "_n0") "quote" content (Some "Dickens")
                  (Some location) 0 None;
     mkBookNugget ("c" +:+ pretty i +:+ "_n1") "insight" "Y" None
                  (Some location) 1 None]
    (Some false) (Some false).

Definition sample_nugget_two : BookNugget :=
  mkBookNugget "c1_n0" "quote" "Z" (Some "Dickens") (Some "Pages 4-6") 0 None.

(** Saved progress for the sample book, segment 2 and one note, and a
    session that starts over a store which holds it. *)
Definition sample_saved_note : NoteItem :=
  mkNoteItem "c2_n0" "X" "quote" "Three" 2 0 (Some "Page 7") [] None.

Definition sample_snapshot : Snapshot :=
  mkSnapshot 2 [sample_saved_note] (mkUsageStats 300 60 0%float).

Definition sample_returning : State :=
  step (initialState {["manan_progress_My_Book" := sample_snapshot]}) UploadBegin.

(** The sample book open at segment 0, over a store that holds the progress
    of another book. *)
Definition sample_two_books : State :=
  run (initialState {["manan_progress_Other_Book" := sample_snapshot]})
    [UploadBegin; UploadEnd sample_file; Resolve 0 (sample_reply "One" "X")].

(** ** Further predicates used in the statements *)

(** The text of the pages [first .. last] of a PDF, as [parsePdf] reads it. *)
Definition pages_text (pdf : PdfDocument) (first last : nat) : string :=
  concat_strings (page_text pdf <$> seq first (S last - first)).

(** The label [parsePdf] gives the chunk of the pages [first .. last]. *)
Definition pages_label (first last : nat) : string :=
  if first =? last then "Page " +:+ pretty first
  else "Pages " +:+ pretty first +:+ "-" +:+ pretty last.

(** The entries [parseEpub] keeps, in the order it visits them. *)
Definition epub_kept (files : list ZipEntry) : list ZipEntry :=
  filter epub_section (js_sort compare_names files).

(** A ledger in ledger order in which no id occurs twice. *)
Definition ledger_ok (l : list NoteItem) : Prop :=
  ledger_sorted l ∧ NoDup (nt_id <$> l).

(** A store all of whose snapshots hold such a ledger. *)
Definition store_ok (store : gmap string Snapshot) : Prop :=
  ∀ k snap, store !! k = Some snap → ledger_ok (sn_notes snap).

(** The number of pending direct fetches. *)
Definition direct_in_flight (s : State) : nat :=
  length (filter (λ rq, rq_kind rq = Direct) (pending s)).

(** A speculative request is for a segment of its book other than the first. *)
Definition prefetch_in_range (rq : Request) : Prop :=
  rq_kind rq = Prefetch →
  1 ≤ rq_index rq < length (bk_chapters (cl_book (rq_closure rq))).

(** What holds of the suspended continuations of a state. *)
Definition requests_inv (s : State) : Prop :=
  (isAnalyzing s = true → 1 ≤ direct_in_flight s) ∧
  Forall prefetch_in_range (pending s) ∧
  Forall (λ tm, 1 ≤ tm_index tm) (timers s).

(** The nuggets of a segment carry the ranks 0, 1, 2, ... in their order. *)
Definition ranked (d : ChapterData) : Prop :=
  bn_sortIndex <$> cd_nuggets d = seq 0 (length (cd_nuggets d)).

(** Every nugget id of the data starts with the tag of segment [i]. *)
Definition scoped (i : nat) (d : ChapterData) : Prop :=
  Forall (λ n, ∃ raw, bn_id n = "c" +:+ pretty i +:+ "_" +:+ raw) (cd_nuggets d).

(** [currentChapterData] after [updateNuggetTags nuggetId tags]. *)
Definition retagged (nuggetId : string) (tags : list string) (d : ChapterData)
    : ChapterData :=
  mkChapterData (cd_title d)
    ((λ n, if bool_decide (bn_id n = nuggetId) then nugget_with_tags tags n else n)
       <$> cd_nuggets d)
    (cd_isBackMatter d) (cd_isFrontMatter d).

(** The cache holds, under each index, data with the property [P] of that
    index, and the view shows data with this property of some index. *)
Definition cache_inv (P : nat → ChapterData → Prop) (s : State) : Prop :=
  (∀ i d, cachedChapters s !! i = Some d → P i d) ∧
  (∀ d, currentChapterData s = Some d → ∃ i, P i d).

(** The book [handleFileUpload] sets from a parse result. *)
Definition book_of (r : ParseResult) : Book :=
  mkBook (pr_title r) (pr_chunks r) (pr_locations r).

(** The notes filed under [title], in ledger order. *)
Definition notes_titled (title : string) (notes : list NoteItem) : list NoteItem :=
  filter (λ n, nt_chapterTitle n = title) notes.

(** [grouped] files all of [notes]: one entry for each title that occurs,
    holding the notes of that title in their order. *)
Definition files_all (notes : list NoteItem) (grouped : list (string * list NoteItem))
    : Prop :=
  NoDup grouped.*1 ∧
  Forall (λ e, e.2 ≠ [] ∧ e.2 = notes_titled e.1 notes) grouped ∧
  ∀ n, n ∈ notes → nt_chapterTitle n ∈ grouped.*1.

(** * Properties *)

(** ** The extraction client *)

Section Scan.
Variables (chapterText : option string) (chapterIndex : nat)
          (locationLabel : option string).

Lemma mapi_from_Forall {A B} (P : B → Prop) (f : A → nat → B) (l : list A) i :
  (∀ x j, x ∈ l → P (f x j)) → Forall P (mapi_from f i l).
Proof.
  revert i. induction l as [|x l IH]; intros i H; simpl; constructor.
  - apply H. left.
  - apply IH. intros y j Hy. apply H. by right.
Qed.

Lemma includes_type_spec selectedTypes ty :
  includes_type selectedTypes ty = true ↔ ty ∈ NuggetType_value <$> selectedTypes.
Proof. unfold includes_type. by rewrite bool_decide_eq_true. Qed.

(** Every nugget of a successful scan has one of the requested types. *)
Lemma scan_types reply aBM aBP selectedTypes data usage :
  scanChapterForNuggets reply chapterText chapterIndex locationLabel
                        aBM aBP selectedTypes = Ok (data, usage) →
  Forall (λ n, bn_type n ∈ NuggetType_value <$> selectedTypes) (cd_nuggets data).
Proof.
  unfold scanChapterForNuggets.
  destruct reply as [|response]; [done|].
  destruct (parse_body response) as [rawData|]; [|done].
  destruct (_ || _).
  - intros [= <- _]. constructor.
  - destruct (rd_nuggets rawData) as [nuggets|]; [|done].
    intros [= <- _]. simpl. apply mapi_from_Forall.
    intros x j Hx. simpl.
    apply list_elem_of_filter in Hx as [Hx _].
    by apply includes_type_spec.
Qed.

(** A successful scan reports the usage of the response, zero without
    usage metadata. *)
Lemma scan_usage response aBM aBP selectedTypes data usage :
  scanChapterForNuggets (Replied response) chapterText chapterIndex locationLabel
                        aBM aBP selectedTypes = Ok (data, usage) →
  usage = usage_of response.
Proof.
  unfold scanChapterForNuggets.
  destruct (parse_body response) as [rawData|]; [|done].
  destruct (_ || _); [by intros [= _ <-]|].
  destruct (rd_nuggets rawData); [by intros [= _ <-]|done].
Qed.

Lemma scan_malformed response aBM aBP selectedTypes :
  rs_text response = TextMalformed →
  scanChapterForNuggets (Replied response) chapterText chapterIndex locationLabel
                        aBM aBP selectedTypes = Throw SyntaxError.
Proof. intros H. unfold scanChapterForNuggets, parse_body. by rewrite H. Qed.
End Scan.

(** The earlier revision of the service treats a skipped segment alike, on
    its own front-matter flag. *)
Lemma V1_skipped_segment (raw : RawData) (um : option UsageMetadata)
    (chapterText : option string) (chapterIndex : nat) (locationLabel : option string)
    (analyzeBackMatter analyzeFrontMatter : bool) :
  (truthy (rd_isBackMatter raw) = true ∧ analyzeBackMatter = false) ∨
  (truthy (rd_isFrontMatter raw) = true ∧ analyzeFrontMatter = false) →
  V1.scanChapterForNuggets (Replied (mkResponse (TextObject raw) um))
    chapterText chapterIndex locationLabel analyzeBackMatter analyzeFrontMatter
  = Ok ({| cd_title := rd_title raw; cd_nuggets := [];
           cd_isBackMatter := Some (truthy (rd_isBackMatter raw));
           cd_isFrontMatter := Some (truthy (rd_isFrontMatter raw)) |},
        usage_of (mkResponse (TextObject raw) um)).
Proof.
  unfold V1.scanChapterForNuggets. simpl.
  intros [[-> ->]|[-> ->]]; simpl; by rewrite ?orb_true_r.
Qed.

(** C10. A segment the service classifies as back matter while the
    back-matter switch is off, or as boilerplate front matter while the
    boilerplate switch is off, comes back as a success with no nuggets, and
    with the title and the two classification flags of the response. *)
Theorem skipped_segment_keeps_classification
    (raw : RawData) (um : option UsageMetadata)
    (chapterText : option string) (chapterIndex : nat) (locationLabel : option string)
    (analyzeBackMatter analyzeBoilerplate : bool) (selectedTypes : list NuggetType) :
  (truthy (rd_isBackMatter raw) = true ∧ analyzeBackMatter = false) ∨
  (truthy (rd_isBoilerplate raw) = true ∧ analyzeBoilerplate = false) →
  ∃ data usage,
    scanChapterForNuggets (Replied (mkResponse (TextObject raw) um))
      chapterText chapterIndex locationLabel
      analyzeBackMatter analyzeBoilerplate selectedTypes = Ok (data, usage) ∧
    cd_nuggets data = [] ∧
    cd_title data = rd_title raw ∧
    cd_isBackMatter data = Some (truthy (rd_isBackMatter raw)) ∧
    cd_isFrontMatter data = Some (truthy (rd_isBoilerplate raw)).
Proof.
  intros H. unfold scanChapterForNuggets. simpl.
  destruct H as [[-> ->]|[-> ->]]; simpl; rewrite ?orb_true_r; eauto 10.
Qed.

Lemma skipped_segment_keeps_classification_witness :
  ∃ data usage,
    scanChapterForNuggets
      (Replied (mkResponse
         (TextObject (mkRawData (Some "Index") (Some false) None (Some true)
                                (Some [mkRawNugget "n0" "quote" "X" None])))
         (Some (mkUsageMetadata 100 20))))
      (Some "A, 1; B, 2") 6 (Some "Page 19") false false [QUOTE; LEARNING; INSIGHT]
      = Ok (data, usage) ∧
    cd_nuggets data = [] ∧
    cd_title data = Some "Index" ∧
    cd_isBackMatter data = Some true ∧
    cd_isFrontMatter data = Some false.
Proof.
  apply (skipped_segment_keeps_classification
           (mkRawData (Some "Index") (Some false) None (Some true)
                      (Some [mkRawNugget "n0" "quote" "X" None]))
           (Some (mkUsageMetadata 100 20))
           (Some "A, 1; B, 2") 6 (Some "Page 19") false false
           [QUOTE; LEARNING; INSIGHT]).
  left. split; reflexivity.
Defined.

(** ** Rendering: what the effects leave alone *)

Ltac unfold_effects :=
  unfold effects, persist, analyzeChapter;
  repeat (case_bool_decide || case_match); simpl.

Lemma effects_cachedChapters prev cur :
  cachedChapters (effects prev cur) = cachedChapters cur.
Proof. by unfold_effects. Qed.

Lemma effects_isPrefetching prev cur :
  isPrefetching (effects prev cur) = isPrefetching cur.
Proof. by unfold_effects. Qed.

Lemma effects_book prev cur : book (effects prev cur) = book cur.
Proof. by unfold_effects. Qed.

Lemma effects_prefetches prev cur :
  prefetches_in_flight (effects prev cur) = prefetches_in_flight cur.
Proof.
  unfold prefetches_in_flight. unfold_effects; try done;
    by rewrite filter_app, filter_cons_False, filter_nil, app_nil_r by done.
Qed.

Lemma commit_cachedChapters prev next :
  cachedChapters (commit prev next) = cachedChapters next.
Proof. unfold commit. by rewrite !effects_cachedChapters. Qed.

Lemma commit_isPrefetching prev next :
  isPrefetching (commit prev next) = isPrefetching next.
Proof. unfold commit. by rewrite !effects_isPrefetching. Qed.

Lemma commit_book prev next : book (commit prev next) = book next.
Proof. unfold commit. by rewrite !effects_book. Qed.

Lemma commit_prefetches prev next :
  prefetches_in_flight (commit prev next) = prefetches_in_flight next.
Proof. unfold commit. by rewrite !effects_prefetches. Qed.

Lemma storageKey_persist cur : storageKey (persist cur) = storageKey cur.
Proof. unfold persist. destruct (storageKey cur) eqn:E; by rewrite <- E. Qed.

Lemma analyze_deps_persist cur : analyze_deps (persist cur) = analyze_deps cur.
Proof. unfold persist. by destruct (storageKey cur). Qed.

(** When neither the storage key nor the dependencies of the analysis effect
    changed, a commit only saves the snapshot. *)
Lemma effects_quiet prev cur :
  storageKey prev = storageKey cur →
  analyze_deps prev = analyze_deps cur →
  effects prev cur = persist cur.
Proof.
  intros Hk Hd. unfold effects.
  by rewrite bool_decide_eq_true_2, bool_decide_eq_true_2.
Qed.

Lemma commit_quiet prev next :
  storageKey prev = storageKey next →
  analyze_deps prev = analyze_deps next →
  commit prev next = persist (persist next).
Proof.
  intros Hk Hd. unfold commit. rewrite (effects_quiet prev next Hk Hd).
  apply effects_quiet;
    [by rewrite storageKey_persist | by rewrite analyze_deps_persist].
Qed.

(** The fields a save leaves alone. *)
Lemma persist_book cur : book (persist cur) = book cur.
Proof. unfold persist. by destruct (storageKey cur). Qed.
Lemma persist_currentChapterIndex cur : currentChapterIndex (persist cur) = currentChapterIndex cur.
Proof. unfold persist. by destruct (storageKey cur). Qed.
Lemma persist_currentChapterData cur : currentChapterData (persist cur) = currentChapterData cur.
Proof. unfold persist. by destruct (storageKey cur). Qed.
Lemma persist_notes cur : notes (persist cur) = notes cur.
Proof. unfold persist. by destruct (storageKey cur). Qed.
Lemma persist_isAnalyzing cur : isAnalyzing (persist cur) = isAnalyzing cur.
Proof. unfold persist. by destruct (storageKey cur). Qed.
Lemma persist_error cur : error (persist cur) = error cur.
Proof. unfold persist. by destruct (storageKey cur). Qed.
Lemma persist_stats cur : stats (persist cur) = stats cur.
Proof. unfold persist. by destruct (storageKey cur). Qed.
Lemma persist_cachedChapters cur : cachedChapters (persist cur) = cachedChapters cur.
Proof. unfold persist. by destruct (storageKey cur). Qed.
Lemma persist_isPrefetching cur : isPrefetching (persist cur) = isPrefetching cur.
Proof. unfold persist. by destruct (storageKey cur). Qed.
Lemma persist_pending cur : pending (persist cur) = pending cur.
Proof. unfold persist. by destruct (storageKey cur). Qed.
Lemma persist_timers cur : timers (persist cur) = timers cur.
Proof. unfold persist. by destruct (storageKey cur). Qed.
Lemma persist_analyzeBackMatter cur : analyzeBackMatter (persist cur) = analyzeBackMatter cur.
Proof. unfold persist. by destruct (storageKey cur). Qed.
Lemma persist_analyzeBoilerplate cur : analyzeBoilerplate (persist cur) = analyzeBoilerplate cur.
Proof. unfold persist. by destruct (storageKey cur). Qed.
Lemma persist_selectedNuggetTypes cur : selectedNuggetTypes (persist cur) = selectedNuggetTypes cur.
Proof. unfold persist. by destruct (storageKey cur). Qed.

Create Rewrite HintDb persist.
#[global] Hint Rewrite persist_book persist_currentChapterIndex persist_currentChapterData persist_notes persist_isAnalyzing persist_error persist_stats persist_cachedChapters persist_isPrefetching persist_pending persist_timers persist_analyzeBackMatter persist_analyzeBoilerplate persist_selectedNuggetTypes : persist.

(** A settled promise changes neither the storage key nor the dependencies
    of the analysis effect. *)
Lemma resolve_quiet s k reply :
  storageKey s = storageKey (handle (Resolve k reply) s) ∧
  analyze_deps s = analyze_deps (handle (Resolve k reply) s).
Proof.
  unfold handle, analyzeChapter_resume, prefetchNext_resume.
  repeat case_match; by simpl.
Qed.

Lemma step_resolve s k reply :
  step s (Resolve k reply) = persist (persist (handle (Resolve k reply) s)).
Proof.
  unfold step. destruct (resolve_quiet s k reply). by apply commit_quiet.
Qed.

(** Without a change of the storage key nothing is loaded, and the second
    round of effects only saves. *)
Lemma effects_same_key prev cur :
  storageKey prev = storageKey cur →
  effects prev cur =
    if bool_decide (analyze_deps prev = analyze_deps cur) then persist cur
    else if isAnalyzing cur then persist cur
    else analyzeChapter cur (currentChapterIndex cur) (persist cur).
Proof. intros Hk. unfold effects. by rewrite (bool_decide_eq_true_2 _ Hk). Qed.

Lemma analyzeChapter_quiet r i s :
  storageKey (analyzeChapter r i s) = storageKey s ∧
  analyze_deps (analyzeChapter r i s) = analyze_deps s.
Proof. unfold analyzeChapter. by repeat case_match. Qed.

Lemma commit_same_key prev next :
  storageKey prev = storageKey next →
  commit prev next = persist (effects prev next).
Proof.
  intros Hk. unfold commit. apply effects_quiet.
  - unfold storageKey. by rewrite effects_book.
  - rewrite (effects_same_key _ _ Hk).
    destruct (analyzeChapter_quiet next (currentChapterIndex next) (persist next))
      as [_ Hd].
    repeat case_match; by rewrite ?Hd, analyze_deps_persist.
Qed.

(** ** Rendering settles after two rounds *)

Lemma analyzeChapter_saved r i s :
  localStorage (analyzeChapter r i s) = localStorage s ∧
  snapshot_of (analyzeChapter r i s) = snapshot_of s.
Proof. unfold analyzeChapter. by repeat case_match. Qed.

Lemma snapshot_of_persist s : snapshot_of (persist s) = snapshot_of s.
Proof. unfold snapshot_of. by autorewrite with persist. Qed.

Lemma localStorage_persist s k :
  storageKey s = Some k →
  localStorage (persist s) !! k = Some (snapshot_of s).
Proof. intros Hk. unfold persist. rewrite Hk. simpl. apply lookup_insert_eq. Qed.

(** After a step the store holds the snapshot of the state under the key of
    the open book: the save effect has nothing left to write until its
    dependencies change. *)
Lemma saved_snapshot_is_current s e k :
  storageKey (step s e) = Some k →
  localStorage (step s e) !! k = Some (snapshot_of (step s e)).
Proof.
  unfold step, commit.
  set (next := handle e s). set (r := effects s next).
  assert (storageKey next = storageKey r) as Hk
    by (unfold storageKey, r; by rewrite effects_book).
  rewrite (effects_same_key next r Hk).
  destruct (analyzeChapter_quiet r (currentChapterIndex r) (persist r)) as [Hq _].
  destruct (analyzeChapter_saved r (currentChapterIndex r) (persist r)) as [Hl Hs].
  repeat case_match;
    rewrite ?Hq, ?Hl, ?Hs, ?storageKey_persist, ?snapshot_of_persist;
    apply localStorage_persist.
Qed.

Lemma persist_saved s k :
  storageKey s = Some k → localStorage s !! k = Some (snapshot_of s) →
  persist s = s.
Proof.
  intros Hk Hs. unfold persist. rewrite Hk, (insert_id _ _ _ Hs). by destruct s.
Qed.

(** A third round of effects would change nothing. *)
Lemma commit_settled s e :
  effects (effects s (handle e s)) (step s e) = step s e.
Proof.
  assert (effects (effects s (handle e s)) (step s e) = persist (step s e)) as ->.
  { unfold step, commit.
    set (next := handle e s). set (r := effects s next).
    assert (storageKey next = storageKey r) as Hk
      by (unfold storageKey, r; by rewrite effects_book).
    apply effects_quiet.
    - unfold storageKey. by rewrite effects_book.
    - rewrite (effects_same_key next r Hk).
      destruct (analyzeChapter_quiet r (currentChapterIndex r) (persist r))
        as [_ Hd].
      repeat case_match; by rewrite ?Hd, analyze_deps_persist. }
  destruct (storageKey (step s e)) as [k|] eqn:Hk.
  - apply (persist_saved _ k Hk). by apply saved_snapshot_is_current.
  - unfold persist. by rewrite Hk.
Qed.

(** ** What a settled request does to the view and to the cache *)

Lemma handle_resolve_ok s k rq reply data usage :
  pending s !! k = Some rq →
  scan_for (rq_index rq) (rq_closure rq) reply = Ok (data, usage) →
  let s' := handle (Resolve k reply) s in
  cachedChapters s' = <[rq_index rq := data]> (cachedChapters s) ∧
  currentChapterIndex s' = currentChapterIndex s ∧
  stats s' = addUsage (stats s) usage ∧
  pending s' = delete k (pending s) ∧
  match rq_kind rq with
  | Direct => currentChapterData s' = Some data ∧ isAnalyzing s' = false
  | Prefetch => currentChapterData s' = currentChapterData s ∧
                isPrefetching s' = false
  end.
Proof.
  intros Hk Hscan. simpl. rewrite Hk.
  unfold analyzeChapter_resume, prefetchNext_resume.
  destruct (rq_kind rq); rewrite Hscan; by simpl.
Qed.

Lemma handle_resolve_throw s k rq reply e :
  pending s !! k = Some rq →
  scan_for (rq_index rq) (rq_closure rq) reply = Throw e →
  let s' := handle (Resolve k reply) s in
  cachedChapters s' = cachedChapters s ∧
  stats s' = stats s ∧
  currentChapterData s' = currentChapterData s ∧
  pending s' = delete k (pending s) ∧
  match rq_kind rq with
  | Direct => error s' = Some analysis_failed ∧ isAnalyzing s' = false
  | Prefetch => error s' = error s ∧ isPrefetching s' = false
  end.
Proof.
  intros Hk Hscan. simpl. rewrite Hk.
  unfold analyzeChapter_resume, prefetchNext_resume.
  destruct (rq_kind rq); rewrite Hscan; by simpl.
Qed.

(** C1, as the code has it. When the response of a direct fetch arrives,
    [analyzeChapter] displays it and caches it under the index of the request
    without comparing that index with the selected one, which it leaves as it
    is; the response of a prefetch is cached only and never displayed. *)
Theorem response_is_displayed_without_index_check
    (s : State) (k : nat) (rq : Request) (reply : ServiceReply)
    (data : ChapterData) (usage : Usage) :
  pending s !! k = Some rq →
  scan_for (rq_index rq) (rq_closure rq) reply = Ok (data, usage) →
  let s' := step s (Resolve k reply) in
  cachedChapters s' !! rq_index rq = Some data ∧
  currentChapterIndex s' = currentChapterIndex s ∧
  currentChapterData s' =
    match rq_kind rq with
    | Direct => Some data
    | Prefetch => currentChapterData s
    end.
Proof.
  intros Hk Hscan s'. subst s'. rewrite step_resolve.
  destruct (handle_resolve_ok s k rq reply data usage Hk Hscan)
    as (Hc & Hi & _ & _ & Hd).
  autorewrite with persist. rewrite Hc, Hi, lookup_insert_eq.
  repeat split. by destruct (rq_kind rq); destruct Hd.
Qed.

Lemma response_is_displayed_without_index_check_witness :
  ∃ rq data usage,
    pending sample_opened !! 0 = Some rq ∧
    scan_for (rq_index rq) (rq_closure rq) (sample_reply "One" "X")
      = Ok (data, usage) ∧
    cachedChapters sample_displayed !! rq_index rq = Some data ∧
    currentChapterIndex sample_displayed = currentChapterIndex sample_opened ∧
    currentChapterData sample_displayed =
      match rq_kind rq with
      | Direct => Some data
      | Prefetch => currentChapterData sample_opened
      end.
Proof.
  eexists _, _, _.
  split; [vm_compute; reflexivity|].
  split; [vm_compute; reflexivity|].
  refine (response_is_displayed_without_index_check
            sample_opened 0 _ (sample_reply "One" "X") _ _ _ _);
    vm_compute; reflexivity.
Defined.

(** C1, counterexample. The book opens and the analysis of segment 0 starts;
    the reader picks segment 1 in the Book Map; the response for segment 0
    arrives and replaces the view, while segment 1 is selected and no request
    for it is in flight. *)
Lemma stale_response_overwrites_view :
  let trace := [UploadBegin; UploadEnd sample_file; JumpToChapter 1] in
  let s := run (initialState ∅) trace in
  let s' := step s (Resolve 0 (sample_reply "One" "X")) in
  offered_all (initialState ∅) trace = true ∧
  (rq_kind <$> pending s, rq_index <$> pending s) = ([Direct], [0]) ∧
  currentChapterIndex s = 1 ∧
  currentChapterData s = None ∧
  currentChapterIndex s' = 1 ∧
  (cd_title <$> currentChapterData s') = Some (Some "One") ∧
  (fmap bn_id ∘ cd_nuggets <$> currentChapterData s') = Some ["c0_n0"; "c0_n1"] ∧
  pending s' = [].
Proof. vm_compute. repeat split. Qed.

(** ** Type filter *)

(** Whatever a settled request, direct or speculative, puts into the cache
    holds only nuggets of the types the request was issued with, under the
    six-parameter revision of the service: an entry of the cache after the
    step is an entry from before, or it is the entry of the request's
    segment and every nugget in it has a type the request captured. The
    types a request captured need not be the types selected when it settles,
    nor those selected when it was issued. *)
Lemma cached_nuggets_have_requested_types
    (s : State) (k : nat) (rq : Request) (reply : ServiceReply)
    (i : nat) (d : ChapterData) :
  pending s !! k = Some rq →
  cachedChapters (step s (Resolve k reply)) !! i = Some d →
  cachedChapters s !! i = Some d ∨
  (i = rq_index rq ∧
   Forall (λ n, bn_type n ∈ NuggetType_value <$> cl_selectedNuggetTypes (rq_closure rq))
          (cd_nuggets d)).
Proof.
  intros Hk. rewrite step_resolve. autorewrite with persist.
  destruct (scan_for (rq_index rq) (rq_closure rq) reply) as [[data usage]|e] eqn:Hscan.
  - destruct (handle_resolve_ok s k rq reply data usage Hk Hscan) as (-> & _).
    destruct (decide (rq_index rq = i)) as [<-|Hne].
    + rewrite lookup_insert_eq. intros [= <-]. right. split; [done|].
      unfold scan_for in Hscan. exact (scan_types _ _ _ _ _ _ _ _ _ Hscan).
    + rewrite lookup_insert_ne by done. by left.
  - destruct (handle_resolve_throw s k rq reply e Hk Hscan) as (-> & _). by left.
Qed.

(** A request issued by the analysis effect has the selection of its render:
    after the back-matter switch the segment is fetched for learnings and
    insights, and the quote of the response is dropped. *)
Example effect_request_drops_deselected_type :
  ∃ rq d,
    pending sample_filtered !! 0 = Some rq ∧
    cl_selectedNuggetTypes (rq_closure rq) = [LEARNING; INSIGHT] ∧
    cachedChapters (step sample_filtered (Resolve 0 (sample_reply "One" "X"))) !! 0
      = Some d ∧
    bn_type <$> cd_nuggets d = ["insight"] ∧
    (cachedChapters sample_filtered !! 0 = Some d ∨
     (0 = rq_index rq ∧
      Forall (λ n, bn_type n ∈ NuggetType_value <$> cl_selectedNuggetTypes (rq_closure rq))
             (cd_nuggets d))).
Proof.
  eexists _, _.
  split; [vm_compute; reflexivity|].
  split; [vm_compute; reflexivity|].
  split; [vm_compute; reflexivity|].
  split; [vm_compute; reflexivity|].
  refine (cached_nuggets_have_requested_types
            sample_filtered 0 _ (sample_reply "One" "X") 0 _ _ _);
    vm_compute; reflexivity.
Qed.

(** C5, at the failing input. Segments 0 and 1 are analysed with all three
    types selected, and the reader switches quotes off. The switch clears
    the cache and fetches segment 0 again, from the callback of the render
    before the click: the request still asks for quotes, and the analysis
    effect of the next render, finding [isAnalyzing] set, issues none of its
    own. The answer is cached and displayed with its quote while learnings
    and insights are selected. The timer of that fetch carries the same
    callback, so the prefetch of segment 1 asks for quotes as well and
    caches one. The five-parameter revision of the service takes no
    selection at all: it returns the response with its quote whatever is
    selected. *)
Theorem deselected_type_is_cached_after_toggle :
  let before := [UploadBegin; UploadEnd sample_file;
                 Resolve 0 (sample_reply "One" "X");
                 TimerFire 0; Resolve 0 (sample_reply "Two" "Z");
                 ToggleNuggetType QUOTE] in
  let refetch := [Resolve 0 (sample_reply "One" "X"); TimerFire 0] in
  let after := [Resolve 0 (sample_reply "Two" "Z")] in
  let s1 := run (initialState ∅) before in
  let s2 := run s1 refetch in
  let s3 := run s2 after in
  offered_all (initialState ∅) (before ++ refetch ++ after) = true ∧
  selectedNuggetTypes s1 = [LEARNING; INSIGHT] ∧
  cachedChapters s1 = ∅ ∧
  (λ rq, (rq_kind rq, rq_index rq, cl_selectedNuggetTypes (rq_closure rq)))
    <$> pending s1 = [(Direct, 0, [QUOTE; LEARNING; INSIGHT])] ∧
  (λ rq, (rq_kind rq, rq_index rq, cl_selectedNuggetTypes (rq_closure rq)))
    <$> pending s2 = [(Prefetch, 1, [QUOTE; LEARNING; INSIGHT])] ∧
  selectedNuggetTypes s3 = [LEARNING; INSIGHT] ∧
  pending s3 = [] ∧
  (fmap bn_type ∘ cd_nuggets <$> cachedChapters s3 !! 0) = Some ["quote"; "insight"] ∧
  (fmap bn_type ∘ cd_nuggets <$> cachedChapters s3 !! 1) = Some ["quote"; "insight"] ∧
  (fmap bn_type ∘ cd_nuggets <$> currentChapterData s3) = Some ["quote"; "insight"] ∧
  ∀ chapterText aBM aFM, ∃ d u,
    V1.scanChapterForNuggets (sample_reply "One" "X") chapterText 0
      (Some "Pages 1-3") aBM aFM = Ok (d, u) ∧
    bn_type <$> cd_nuggets d = ["quote"; "insight"].
Proof.
  do 10 (split; [vm_compute; reflexivity|]).
  intros chapterText aBM aFM. eexists _, _. split; reflexivity.
Qed.

(** ** Bad response bodies *)

(** An absent body is replaced by the text of the empty object, whose
    [nuggets] is undefined: the call raises as well. *)
Lemma empty_body_raises um chapterText chapterIndex locationLabel aBM aBP selectedTypes :
  scanChapterForNuggets (Replied (mkResponse TextAbsent um))
    chapterText chapterIndex locationLabel aBM aBP selectedTypes = Throw TypeError.
Proof. reflexivity. Qed.




(** ** Requests in flight *)

Lemma filter_delete_length {A} (P : A → Prop) `{∀ x, Decision (P x)}
    (l : list A) (k : nat) (x : A) :
  l !! k = Some x →
  length (filter P (delete k l)) =
  length (filter P l) - (if decide (P x) then 1 else 0).
Proof.
  revert k. induction l as [|y l IH]; intros [|k] Hk; simplify_eq/=.
  - rewrite filter_cons. destruct (decide (P x)); simpl; lia.
  - rewrite !filter_cons. specialize (IH k Hk).
    destruct (decide (P y)); simpl; [|done].
    rewrite IH. destruct (decide (P x)); [|lia].
    assert (0 < length (filter P l)); [|lia].
    apply list_elem_of_lookup_2 in Hk.
    assert (x ∈ filter P l) as Hin by (by apply list_elem_of_filter).
    destruct (filter P l); [by apply elem_of_nil in Hin | simpl; lia].
Qed.

Lemma handle_plain e s :
  plain_event e = true →
  pending (handle e s) = pending s ∧
  isPrefetching (handle e s) = isPrefetching s.
Proof.
  destruct e; try done; intros _; simpl;
    unfold handleFileUpload_end, toggleNote, handleAddTag, removeTag,
           updateNuggetTags, downloadNotes;
    repeat case_match; by simpl.
Qed.

Lemma handle_prefetch_inv e s : prefetch_inv s → prefetch_inv (handle e s).
Proof.
  unfold prefetch_inv, prefetches_in_flight. intros Hinv.
  destruct (plain_event e) eqn:He.
  { by destruct (handle_plain e s He) as [-> ->]. }
  destruct e as [| | | | |type| | | | | | |k reply|k]; try done; simpl.
  - unfold toggleNuggetTypePreference, analyzeChapter. simpl.
    destruct (book s); [|done].
    destruct (_ !! _); simpl; [done|].
    by rewrite filter_app, filter_cons_False, filter_nil, app_nil_r by done.
  - destruct (pending s !! k) as [rq|] eqn:Hk; [|done].
    pose proof (filter_delete_length (λ rq, rq_kind rq = Prefetch) _ _ _ Hk) as Hdel.
    unfold analyzeChapter_resume, prefetchNext_resume.
    destruct (rq_kind rq) eqn:Hkind;
      destruct (scan_for _ _ _) as [[data usage]|]; simpl;
      rewrite Hdel, Hinv, Hkind; simpl;
      destruct (isPrefetching s); lia.
  - destruct (timers s !! k) as [tm|]; [|done].
    unfold prefetchNext. simpl.
    destruct (isPrefetching s) eqn:Hp; rewrite ?orb_true_r; simpl; [by rewrite Hp|].
    destruct (_ || _); simpl; [by rewrite Hp|].
    rewrite filter_app, filter_cons_True, filter_nil, length_app by done.
    simpl. lia.
Qed.

Lemma step_prefetch_inv s e : prefetch_inv s → prefetch_inv (step s e).
Proof.
  intros Hinv. unfold step, prefetch_inv.
  rewrite commit_prefetches, commit_isPrefetching.
  by apply handle_prefetch_inv.
Qed.

Lemma reachable_prefetch_inv store s : reachable store s → prefetch_inv s.
Proof.
  induction 1 as [|s e _ IH]; [reflexivity|]. by apply step_prefetch_inv.
Qed.

Lemma reachable_run store s es :
  reachable store s → reachable store (run s es).
Proof.
  revert s. induction es as [|e es IH]; intros s Hs; [done|].
  simpl. apply IH. by constructor.
Qed.

Lemma set_currentChapterIndex_same s :
  set_currentChapterIndex (currentChapterIndex s) s = s.
Proof. by destruct s. Qed.

(** What a navigation does to the pending requests: nothing, or one direct
    request for the target; nothing when the target is already selected,
    cached, or while an analysis is running. *)
Lemma jump_pending s i :
  pending (step s (JumpToChapter i)) =
    if bool_decide (currentChapterIndex s = i) then pending s
    else if isAnalyzing s then pending s
    else match book s with
         | None => pending s
         | Some b =>
             match cachedChapters s !! i with
             | Some _ => pending s
             | None =>
                 pending s ++
                 [mkRequest Direct i (closure_of (set_currentChapterIndex i s) b)]
             end
         end.
Proof.
  unfold step. simpl. unfold jumpToChapter.
  rewrite commit_same_key by done. rewrite effects_same_key by done.
  autorewrite with persist.
  destruct (decide (currentChapterIndex s = i)) as [<-|Hne].
  - rewrite set_currentChapterIndex_same.
    rewrite !bool_decide_eq_true_2 by done. by autorewrite with persist.
  - rewrite !bool_decide_eq_false_2; [|done|].
    2:{ unfold analyze_deps. simpl. congruence. }
    simpl. destruct (isAnalyzing s); [by autorewrite with persist|].
    unfold analyzeChapter. simpl.
    destruct (book s); [|by autorewrite with persist].
    autorewrite with persist. simpl.
    destruct (cachedChapters s !! i); simpl; by autorewrite with persist.
Qed.

Lemma analyzeChapter_index r i s :
  currentChapterIndex (analyzeChapter r i s) = currentChapterIndex s.
Proof. unfold analyzeChapter. by repeat case_match. Qed.

Lemma jump_index s i : currentChapterIndex (step s (JumpToChapter i)) = i.
Proof.
  unfold step. simpl. unfold jumpToChapter.
  rewrite commit_same_key by done. rewrite effects_same_key by done.
  autorewrite with persist.
  repeat case_match;
    by rewrite ?analyzeChapter_index, ?persist_currentChapterIndex.
Qed.

(** C3, as the code has it. The controller keeps no record of the indices in
    flight. What it guarantees is this: in every reachable state at most one
    speculative request is pending (the prefetch-busy cell); one navigation
    issues at most one request, a direct one for its target added to the
    pending requests, which otherwise stay as they are, and none when its
    target is cached; navigating to the same segment again at once issues no
    further request. *)
Theorem one_prefetch_and_no_request_on_repeat
    (store : gmap string Snapshot) (s : State) (i : nat) :
  reachable store s →
  let s1 := step s (JumpToChapter i) in
  let s2 := step s1 (JumpToChapter i) in
  prefetches_in_flight s ≤ 1 ∧
  (pending s1 = pending s ∨
   ∃ cl, pending s1 = pending s ++ [mkRequest Direct i cl]) ∧
  length (pending s1) ≤ length (pending s) + 1 ∧
  in_flight i s1 ≤ in_flight i s + 1 ∧
  (is_Some (cachedChapters s !! i) → pending s1 = pending s) ∧
  pending s2 = pending s1.
Proof.
  intros Hs s1 s2. split; [|split; [|split; [|split; [|split]]]].
  - rewrite (reachable_prefetch_inv _ _ Hs). destruct (isPrefetching s); lia.
  - subst s1. rewrite jump_pending.
    destruct (bool_decide _); [by left|]. destruct (isAnalyzing s); [by left|].
    destruct (book s); [|by left]. destruct (cachedChapters s !! i); [by left|].
    right. by eexists.
  - subst s1. rewrite jump_pending.
    destruct (bool_decide _); [lia|]. destruct (isAnalyzing s); [lia|].
    destruct (book s); [|lia]. destruct (cachedChapters s !! i); [lia|].
    rewrite length_app. simpl. lia.
  - subst s1. unfold in_flight. rewrite jump_pending.
    destruct (bool_decide _); [lia|]. destruct (isAnalyzing s); [lia|].
    destruct (book s); [|lia]. destruct (cachedChapters s !! i); [lia|].
    rewrite filter_app, length_app, filter_cons, filter_nil.
    destruct (decide _); simpl; lia.
  - intros [d Hd]. subst s1. rewrite jump_pending, Hd. by repeat case_match.
  - subst s2. rewrite jump_pending.
    by rewrite bool_decide_eq_true_2 by (subst s1; apply jump_index).
Qed.

Lemma one_prefetch_and_no_request_on_repeat_witness :
  let s := run sample_displayed [TimerFire 0] in
  let s1 := step s (JumpToChapter 2) in
  let s2 := step s1 (JumpToChapter 2) in
  prefetches_in_flight s ≤ 1 ∧
  (pending s1 = pending s ∨
   ∃ cl, pending s1 = pending s ++ [mkRequest Direct 2 cl]) ∧
  length (pending s1) ≤ length (pending s) + 1 ∧
  in_flight 2 s1 ≤ in_flight 2 s + 1 ∧
  (is_Some (cachedChapters s !! 2) → pending s1 = pending s) ∧
  pending s2 = pending s1.
Proof.
  apply (one_prefetch_and_no_request_on_repeat ∅).
  apply reachable_run, reachable_step, reachable_run, reachable_init.
Defined.

(** C3, counterexample. Segment 0 is displayed and the prefetch of segment 1
    has started; the reader moves on to segment 1 before it answers. Two
    requests for segment 1 are then in flight, the speculative one and a
    direct one. *)
Lemma direct_fetch_duplicates_prefetch :
  let trace := [UploadBegin; UploadEnd sample_file;
                Resolve 0 (sample_reply "One" "X"); TimerFire 0;
                JumpToChapter 1] in
  let s := run (initialState ∅) trace in
  offered_all (initialState ∅) trace = true ∧
  (λ rq, (rq_kind rq, rq_index rq)) <$> pending s = [(Prefetch, 1); (Direct, 1)] ∧
  in_flight 1 s = 2.
Proof. vm_compute. repeat split. Qed.

(** The scenario of the specification: after segment 0 is analysed, the
    prefetch brings segment 1 into the cache, and navigating there issues no
    request. *)
Example prefetch_then_navigate :
  let s := run sample_displayed
             [TimerFire 0; Resolve 0 (sample_reply "Two" "Z"); JumpToChapter 1] in
  pending s = [] ∧
  (cd_title <$> currentChapterData s) = Some (Some "Two") ∧
  totalInputTokens (stats s) = 200.
Proof. vm_compute. repeat split. Qed.

(** ** Filter switches *)

Lemma analyzeChapter_cachedChapters r i s :
  cachedChapters (analyzeChapter r i s) = cachedChapters s.
Proof. unfold analyzeChapter. by repeat case_match. Qed.

(** Each of the three filter actions empties the cache. *)
Lemma filter_toggle_clears_cache s e :
  e = ToggleBackMatter ∨ e = ToggleBoilerplate ∨ (∃ t, e = ToggleNuggetType t) →
  cachedChapters (step s e) = ∅.
Proof.
  unfold step. rewrite commit_cachedChapters.
  intros [->|[->|[t ->]]]; simpl; try done.
  unfold toggleNuggetTypePreference. by rewrite analyzeChapter_cachedChapters.
Qed.

(** The type toggle calls [analyzeChapter] itself: with a book open it always
    issues a direct request for the current segment, with the filters of the
    render the click happened in. *)
Lemma type_toggle_pending s t b :
  book s = Some b →
  pending (step s (ToggleNuggetType t)) =
    pending s ++ [mkRequest Direct (currentChapterIndex s) (closure_of s b)] ∧
  isAnalyzing (step s (ToggleNuggetType t)) = true.
Proof.
  intros Hb. unfold step. simpl.
  assert (storageKey s = storageKey (toggleNuggetTypePreference t s)) as Hk.
  { unfold toggleNuggetTypePreference.
    by destruct (analyzeChapter_quiet s (currentChapterIndex s)
                   (set_cachedChapters ∅ (set_selectedNuggetTypes
                      (if bool_decide (t ∈ selectedNuggetTypes s)
                       then filter (λ t0, t0 ≠ t) (selectedNuggetTypes s)
                       else selectedNuggetTypes s ++ [t]) s))) as [-> _]. }
  rewrite commit_same_key by done. rewrite effects_same_key by done.
  autorewrite with persist.
  assert (isAnalyzing (toggleNuggetTypePreference t s) = true ∧
          pending (toggleNuggetTypePreference t s) =
            pending s ++ [mkRequest Direct (currentChapterIndex s) (closure_of s b)])
    as [Ha Hp].
  { unfold toggleNuggetTypePreference, analyzeChapter. rewrite Hb. simpl.
    by rewrite lookup_empty. }
  rewrite Ha. destruct (bool_decide _); by autorewrite with persist.
Qed.

(** So the request of a type toggle is one toggle behind: quotes are switched
    off, the segment is fetched again with quotes still requested, and the
    analysis effect, finding [isAnalyzing] set, adds nothing. *)
Example type_toggle_requests_previous_types :
  let s := step sample_displayed (ToggleNuggetType QUOTE) in
  let s' := step s (Resolve 0 (sample_reply "One" "X")) in
  selectedNuggetTypes s = [LEARNING; INSIGHT] ∧
  (cl_selectedNuggetTypes ∘ rq_closure <$> pending s) = [[QUOTE; LEARNING; INSIGHT]] ∧
  pending s' = [] ∧
  (fmap bn_type ∘ cd_nuggets <$> cachedChapters s' !! 0) = Some ["quote"; "insight"].
Proof. vm_compute. repeat split. Qed.

(** The two matter switches leave the request to the analysis effect, which
    does nothing while [isAnalyzing] is set. *)
Lemma matter_toggle_pending s e b :
  e = ToggleBackMatter ∨ e = ToggleBoilerplate →
  book s = Some b →
  pending (step s e) =
    if isAnalyzing s then pending s
    else pending s ++
         [mkRequest Direct (currentChapterIndex s) (closure_of (handle e s) b)].
Proof.
  intros He Hb. unfold step.
  assert (storageKey s = storageKey (handle e s)) as Hk
    by (by destruct He as [->| ->]).
  assert (analyze_deps s ≠ analyze_deps (handle e s)) as Hd.
  { destruct He as [->| ->]; unfold analyze_deps; simpl;
      [destruct (analyzeBackMatter s)|destruct (analyzeBoilerplate s)];
      simpl; congruence. }
  assert (isAnalyzing (handle e s) = isAnalyzing s ∧
          currentChapterIndex (handle e s) = currentChapterIndex s ∧
          book (handle e s) = Some b ∧
          cachedChapters (handle e s) = ∅ ∧
          pending (handle e s) = pending s) as (Ha & Hi & Hb' & Hc & Hp)
    by (by destruct He as [->| ->]).
  rewrite commit_same_key by done. rewrite effects_same_key by done.
  rewrite (bool_decide_eq_false_2 _ Hd), Ha. autorewrite with persist.
  destruct (isAnalyzing s); [by autorewrite with persist|].
  unfold analyzeChapter. rewrite Hb'. autorewrite with persist.
  by rewrite Hc, lookup_empty, Hi, Hp.
Qed.

(** C2, at the failing input. The first analysis of segment 0 is in flight
    when the reader turns the Back-Matter switch on. The cache is emptied and
    the switch is on, but no request is issued: the only pending request still
    carries the switch as off. When it answers, for a segment the service
    classifies as back matter, the empty analysis made for the old setting is
    cached and displayed, and nothing is pending that would replace it. *)
Lemma matter_toggle_during_analysis_does_not_refetch :
  let s := sample_opened in
  let s' := step s ToggleBackMatter in
  let s'' := step s' (Resolve 0 backmatter_reply) in
  offered s ToggleBackMatter = true ∧
  isAnalyzing s = true ∧
  analyzeBackMatter s' = true ∧
  cachedChapters s' = ∅ ∧
  pending s' = pending s ∧
  (cl_analyzeBackMatter ∘ rq_closure <$> pending s') = [false] ∧
  pending s'' = [] ∧
  isAnalyzing s'' = false ∧
  analyzeBackMatter s'' = true ∧
  (cd_nuggets <$> cachedChapters s'' !! 0) = Some [] ∧
  (cd_nuggets <$> currentChapterData s'') = Some [].
Proof. vm_compute. repeat split. Qed.

(** ** Tags *)

(** No tag action writes to the cache. *)
Lemma tag_actions_leave_cache s e :
  (∃ i tags, e = UpdateNuggetTags i tags) ∨ (∃ i t, e = AddTag i t) ∨
  (∃ i t, e = RemoveTag i t) →
  cachedChapters (step s e) = cachedChapters s.
Proof.
  unfold step. rewrite commit_cachedChapters.
  intros [(i & tags & ->)|[(i & t & ->)|(i & t & ->)]]; simpl;
    unfold handleAddTag, removeTag, updateNuggetTags;
    repeat case_match; by simpl.
Qed.

(** C4, at the failing input. The reader selects nugget [c0_n0] of segment 0
    and tags it: the note and the displayed nugget carry the tag, the cached
    nugget does not. After a visit to segment 1 and back, with no request for
    segment 0 issued, the nugget is displayed from the cache without the tag
    while the note still carries it. *)
Lemma tag_update_misses_the_cache :
  let before := [UploadBegin; UploadEnd sample_file;
                 Resolve 0 (sample_reply "One" "X");
                 ToggleNote (sample_nugget "X"); AddTag "c0_n0" "#philosophy"] in
  let away_and_back := [JumpToChapter 1; Resolve 0 (sample_reply "Two" "Z");
                        JumpToChapter 0] in
  let s := run (initialState ∅) before in
  let s' := run s away_and_back in
  let tags_of cd := bn_tags <$> filter (λ n, bn_id n = "c0_n0") (cd_nuggets cd) in
  offered_all (initialState ∅) (before ++ away_and_back) = true ∧
  (nt_id <$> notes s, nt_tags <$> notes s) = (["c0_n0"], [["philosophy"]]) ∧
  (tags_of <$> currentChapterData s) = Some [Some ["philosophy"]] ∧
  (tags_of <$> cachedChapters s !! 0) = Some [None] ∧
  in_flight 0 (run s [JumpToChapter 1]) = 0 ∧
  in_flight 0 (run s [JumpToChapter 1; Resolve 0 (sample_reply "Two" "Z")]) = 0 ∧
  in_flight 0 s' = 0 ∧
  currentChapterIndex s' = 0 ∧
  (tags_of <$> currentChapterData s') = Some [None] ∧
  (nt_id <$> notes s', nt_tags <$> notes s') = (["c0_n0"], [["philosophy"]]).
Proof. vm_compute. repeat split. Qed.

(** ** Closing the book *)

Lemma effects_no_book prev cur : book cur = None → effects prev cur = cur.
Proof.
  intros Hb. unfold effects, persist, analyzeChapter, storageKey.
  rewrite Hb. simpl. by repeat case_match.
Qed.

Lemma commit_no_book prev next : book next = None → commit prev next = next.
Proof.
  intros Hb. unfold commit. rewrite (effects_no_book prev next Hb).
  by apply effects_no_book.
Qed.

Lemma step_reset s : step s Reset = reset s.
Proof. unfold step. by apply commit_no_book. Qed.

Lemma step_downloadNotes s k :
  storageKey s = Some k → notes s ≠ [] →
  step s (DownloadNotes true) =
  reset (set_localStorage (delete k (localStorage s)) s).
Proof.
  intros Hk Hn. unfold step. simpl. unfold downloadNotes. rewrite Hk.
  rewrite bool_decide_eq_false_2 by (by destruct (notes s)).
  by apply commit_no_book.
Qed.




(** ** The stable sort *)

Section Sort.
Context {A : Type} (cmp : A → A → Z).

Lemma js_sort_snoc l x : js_sort cmp (l ++ [x]) = sort_insert cmp x (js_sort cmp l).
Proof. unfold js_sort. by rewrite fold_left_app. Qed.

(** An element that no element of the list follows goes to the end. *)
Lemma sort_insert_last x l :
  (∀ y, y ∈ l → (0 ≤ cmp x y)%Z) → sort_insert cmp x l = l ++ [x].
Proof.
  induction l as [|y l IH]; intros H; [done|]. simpl.
  rewrite (proj2 (Z.ltb_ge _ _)) by (apply H; left).
  rewrite IH; [done|]. intros z Hz. apply H. by right.
Qed.

(** It goes in front of the first element it precedes. *)
Lemma sort_insert_middle x l1 z l2 :
  (∀ y, y ∈ l1 → (0 ≤ cmp x y)%Z) → (cmp x z < 0)%Z →
  sort_insert cmp x (l1 ++ z :: l2) = l1 ++ x :: z :: l2.
Proof.
  induction l1 as [|y l1 IH]; intros H Hz; simpl.
  - by rewrite (proj2 (Z.ltb_lt _ _)).
  - rewrite (proj2 (Z.ltb_ge _ _)) by (apply H; left).
    rewrite IH; [done| |done]. intros y' Hy'. apply H. by right.
Qed.

(** Sorting a sorted list changes nothing. *)
Lemma js_sort_sorted l :
  StronglySorted (λ a b, (0 ≤ cmp b a)%Z) l → js_sort cmp l = l.
Proof.
  induction l as [|x l IH] using rev_ind; intros Hs; [done|].
  rewrite js_sort_snoc, IH by (by eapply StronglySorted_app_1_l).
  apply sort_insert_last. intros y Hy.
  apply (StronglySorted_app_1_elem_of (λ a b, (0 ≤ cmp b a)%Z) l [x] y x Hs Hy).
  left.
Qed.

Lemma sort_insert_Permutation x l : sort_insert cmp x l ≡ₚ x :: l.
Proof.
  induction l as [|y l IH]; [done|]. simpl.
  destruct (_ <? _)%Z; [done|]. rewrite IH. apply Permutation_swap.
Qed.

Lemma js_sort_Permutation l : js_sort cmp l ≡ₚ l.
Proof.
  induction l as [|x l IH] using rev_ind; [done|].
  rewrite js_sort_snoc, sort_insert_Permutation, IH.
  by rewrite Permutation_app_comm.
Qed.

Lemma filter_sort_insert (P : A → Prop) `{∀ x, Decision (P x)} x l :
  ¬ P x → filter P (sort_insert cmp x l) = filter P l.
Proof.
  intros Hx. induction l as [|y l IH]; simpl.
  - by rewrite filter_cons_False.
  - destruct (_ <? _)%Z; [by rewrite filter_cons_False|].
    by rewrite !filter_cons, IH.
Qed.
End Sort.

Lemma filter_all {A} (P : A → Prop) `{∀ x, Decision (P x)} (l : list A) :
  (∀ x, x ∈ l → P x) → filter P l = l.
Proof.
  induction l as [|y l IH]; intros Hl; [done|].
  rewrite filter_cons_True by (apply Hl; left).
  f_equal. apply IH. intros x Hx. apply Hl. by right.
Qed.

(** ** The selection ledger *)

Lemma find_note_None (id : string) (l : list NoteItem) :
  id ∉ nt_id <$> l →
  List.find (λ n, bool_decide (nt_id n = id)) l = None.
Proof.
  induction l as [|y l IH]; intros Hid; [done|]. simpl.
  rewrite bool_decide_eq_false_2.
  - apply IH. intros Hin. apply Hid. by right.
  - intros <-. apply Hid. left.
Qed.

Lemma find_note_Some (id : string) (l : list NoteItem) :
  id ∈ nt_id <$> l →
  is_Some (List.find (λ n, bool_decide (nt_id n = id)) l).
Proof.
  induction l as [|y l IH]; intros Hid; [by apply elem_of_nil in Hid|]. simpl.
  case_bool_decide; [by eexists|].
  apply IH. apply elem_of_cons in Hid as [Hid|Hid]; [by simplify_eq/=|done].
Qed.

Lemma filter_other_ids (id : string) (l : list NoteItem) :
  id ∉ nt_id <$> l → filter (λ n, nt_id n ≠ id) l = l.
Proof.
  intros Hid. apply filter_all. intros x Hx Heq. apply Hid.
  rewrite <- Heq. by apply list_elem_of_fmap_2.
Qed.

(** A toggle changes the ledger and nothing else of what the next toggle
    reads. *)
Lemma step_toggleNote s n :
  step s (ToggleNote n) = persist (persist (toggleNote n s)).
Proof.
  unfold step. apply commit_quiet; simpl; unfold toggleNote; by case_match.
Qed.

Lemma notes_toggleNote n s :
  notes (toggleNote n s) =
  match List.find (λ m, bool_decide (nt_id m = bn_id n)) (notes s) with
  | Some _ => filter (λ m, nt_id m ≠ bn_id n) (notes s)
  | None => js_sort compare_notes (notes s ++ [newNote_of n s])
  end.
Proof. unfold toggleNote. by case_match. Qed.

Lemma newNote_of_step_toggleNote n m s :
  newNote_of n (step s (ToggleNote m)) = newNote_of n s.
Proof.
  rewrite step_toggleNote. unfold newNote_of, chapterTitle_for.
  autorewrite with persist. unfold toggleNote.
  destruct (List.find _ _); reflexivity.
Qed.

Lemma notes_step_toggleNote n s :
  notes (step s (ToggleNote n)) =
  match List.find (λ m, bool_decide (nt_id m = bn_id n)) (notes s) with
  | Some _ => filter (λ m, nt_id m ≠ bn_id n) (notes s)
  | None => js_sort compare_notes (notes s ++ [newNote_of n s])
  end.
Proof.
  rewrite step_toggleNote. autorewrite with persist. apply notes_toggleNote.
Qed.

(** C8, as the code has it. On a ledger in ledger order, toggling a nugget
    that is not selected and toggling it again gives back the ledger, order
    included. Toggling a selected nugget twice removes its note and inserts
    the note built from the nugget and the chapter on display: this gives
    back the ledger when that note is the one removed and no later note ties
    with it. *)
Theorem toggle_twice_restores_ledger (s : State) (nugget : BookNugget) :
  ledger_sorted (notes s) →
  let s2 := run s [ToggleNote nugget; ToggleNote nugget] in
  (bn_id nugget ∉ nt_id <$> notes s → notes s2 = notes s) ∧
  (∀ l1 l2,
     notes s = l1 ++ newNote_of nugget s :: l2 →
     bn_id nugget ∉ nt_id <$> l1 → bn_id nugget ∉ nt_id <$> l2 →
     (∀ m, m ∈ l2 → (compare_notes (newNote_of nugget s) m < 0)%Z) →
     notes s2 = notes s).
Proof.
  intros Hs s2. subst s2. simpl.
  rewrite notes_step_toggleNote, newNote_of_step_toggleNote, notes_step_toggleNote.
  set (new := newNote_of nugget s). set (id := bn_id nugget).
  assert (nt_id new = id) as Hnew by done.
  split.
  - intros Hid. rewrite (find_note_None id _ Hid).
    rewrite js_sort_snoc, (js_sort_sorted _ _ Hs).
    destruct (find_note_Some id (sort_insert compare_notes new (notes s)))
      as [m ->].
    { rewrite sort_insert_Permutation. left. }
    rewrite filter_sort_insert by (intros H; by apply H).
    by apply filter_other_ids.
  - intros l1 l2 Hl Hid1 Hid2 Hlast. rewrite Hl in Hs |- *.
    destruct (find_note_Some id (l1 ++ new :: l2)) as [m ->].
    { rewrite fmap_app, fmap_cons, Hnew. apply elem_of_app. right. left. }
    rewrite filter_app, filter_cons_False by (intros H; by apply H).
    rewrite !filter_other_ids by done.
    rewrite find_note_None
      by (rewrite fmap_app; intros [?|?]%elem_of_app; done).
    assert (StronglySorted (λ a b, (0 ≤ compare_notes b a)%Z) (l1 ++ l2)) as Hs'.
    { apply StronglySorted_app_2.
      - intros x1 x2 H1 H2.
        apply (StronglySorted_app_1_elem_of _ _ _ x1 x2 Hs H1). by right.
      - by eapply StronglySorted_app_1_l.
      - apply StronglySorted_app_1_r in Hs. by inv Hs. }
    rewrite js_sort_snoc, (js_sort_sorted _ _ Hs').
    assert (∀ y, y ∈ l1 → (0 ≤ compare_notes new y)%Z) as Hl1.
    { intros y Hy. apply (StronglySorted_app_1_elem_of _ _ _ y new Hs Hy). left. }
    destruct l2 as [|z l2].
    + rewrite app_nil_r. by apply sort_insert_last.
    + apply sort_insert_middle; [done|]. apply Hlast. left.
Qed.

Lemma toggle_twice_restores_ledger_witness :
  let s := step sample_displayed (ToggleNote sample_nugget1) in
  notes (run s [ToggleNote (sample_nugget "X"); ToggleNote (sample_nugget "X")])
    = notes s ∧
  notes (run s [ToggleNote sample_nugget1; ToggleNote sample_nugget1]) = notes s.
Proof.
  intros s.
  assert (ledger_sorted (notes s)) as Hs by (vm_compute; repeat constructor).
  split.
  - apply (proj1 (toggle_twice_restores_ledger s (sample_nugget "X") Hs)).
    vm_compute. intros H. inversion H as [|? ? ? H']; inversion H'.
  - apply (proj2 (toggle_twice_restores_ledger s sample_nugget1 Hs) [] []).
    + vm_compute; reflexivity.
    + intros H; inversion H.
    + intros H; inversion H.
    + intros m H; inversion H.
Defined.

(** C8, counterexample. The reader selects [c0_n0]; a filter switch makes the
    segment be extracted again, and the service words the nugget differently.
    Toggling the displayed nugget twice then leaves a note with the new
    wording where the note with the old one was. *)
Lemma toggle_twice_replaces_note :
  let trace := [UploadBegin; UploadEnd sample_file;
                Resolve 0 (sample_reply "One" "X");
                ToggleNote (sample_nugget "X");
                ToggleBackMatter; Resolve 0 (sample_reply "One" "Z")] in
  let twice := [ToggleNote (sample_nugget "Z"); ToggleNote (sample_nugget "Z")] in
  let s := run (initialState ∅) trace in
  offered_all (initialState ∅) (trace ++ twice) = true ∧
  nt_content <$> notes s = ["X"] ∧
  nt_content <$> notes (run s twice) = ["Z"] ∧
  notes (run s twice) ≠ notes s.
Proof.
  vm_compute. repeat split. intros H. discriminate H.
Qed.

(** ** Segmentation *)

(** The loop adds one chunk and one location per group of three pages. *)
Lemma parsePdf_loop_lengths pdf i chunks locations :
  let r := parsePdf_loop pdf i chunks locations in
  length (fst r) = length chunks + (numPages pdf + 3 - i) / 3 ∧
  length (snd r) = length locations + (numPages pdf + 3 - i) / 3.
Proof.
  funelim (parsePdf_loop pdf i chunks locations); cbn zeta.
  - clear Heq Heqcall. cbn zeta in H. destruct H as [-> ->].
    rewrite !length_app. cbn [length].
    assert ((numPages pdf + 3 - i) / 3 = 1 + (numPages pdf + 3 - (i + 3)) / 3)
      as ->; [|lia].
    replace (numPages pdf + 3 - i)
      with (numPages pdf + 3 - (i + 3) + 1 * 3) by lia.
    rewrite Nat.div_add by lia. lia.
  - cbn [fst snd]. rewrite Nat.div_small by lia. lia.
Qed.

Lemma parsePdf_lengths name pdf :
  length (pr_chunks (parsePdf name pdf)) = (numPages pdf + 2) / 3 ∧
  length (pr_locations (parsePdf name pdf)) = (numPages pdf + 2) / 3.
Proof.
  unfold parsePdf.
  pose proof (parsePdf_loop_lengths pdf 1 [] []) as H.
  destruct (parsePdf_loop pdf 1 [] []) as [chunks locations]. simpl in *.
  by replace (numPages pdf + 2) with (numPages pdf + 3 - 1) by lia.
Qed.

Lemma parseEpub_step_lengths acc e :
  let r := parseEpub_step acc e in
  length (r.1.1) = length (acc.1.1) + (if decide (epub_section e) then 1 else 0) ∧
  length (r.1.2) = length (acc.1.2) + (if decide (epub_section e) then 1 else 0).
Proof.
  destruct acc as [[chunks locations] count]. unfold parseEpub_step.
  destruct (decide (epub_section e)) as [[Hext Hlen]|Hno].
  - rewrite Hext, (proj2 (Nat.ltb_lt _ _) Hlen). simpl.
    rewrite !length_app. simpl. lia.
  - destruct (_ || _) eqn:Hext; [|simpl; lia].
    destruct (100 <? _) eqn:Hlen; [|simpl; lia].
    destruct Hno. split; [done|]. by apply Nat.ltb_lt.
Qed.

Lemma parseEpub_fold_lengths l acc :
  let r := fold_left parseEpub_step l acc in
  length (r.1.1) = length (acc.1.1) + length (filter epub_section l) ∧
  length (r.1.2) = length (acc.1.2) + length (filter epub_section l).
Proof.
  revert acc. induction l as [|e l IH]; intros acc; simpl; [lia|].
  destruct (IH (parseEpub_step acc e)) as [-> ->].
  destruct (parseEpub_step_lengths acc e) as [-> ->].
  rewrite filter_cons. destruct (decide (epub_section e)); simpl; lia.
Qed.

Lemma parseEpub_lengths name files :
  length (pr_chunks (parseEpub name files)) = length (filter epub_section files) ∧
  length (pr_locations (parseEpub name files)) = length (filter epub_section files).
Proof.
  unfold parseEpub.
  pose proof (parseEpub_fold_lengths (js_sort compare_names files) ([], [], 0)) as H.
  destruct (fold_left _ _ _) as [[chunks locations] count]. simpl in *.
  by rewrite (js_sort_Permutation compare_names files) in H.
Qed.

(** C9, as the code has it. A parsed upload has as many locations as
    segments. A PDF gives one segment per three pages, so at least one when
    it has a page; an EPUB gives one segment per markup entry with more than
    100 characters of text, which may be none. *)
Theorem parsed_upload_segments (f : File) (r : ParseResult) :
  parse_upload f = Ok r →
  length (pr_chunks r) = length (pr_locations r) ∧
  (∀ pdf, endsWith (toLowerCase (file_name f)) ".pdf" = true →
          file_pdf f = Ok pdf →
          length (pr_chunks r) = (numPages pdf + 2) / 3 ∧
          (1 ≤ numPages pdf → 1 ≤ length (pr_chunks r))) ∧
  (∀ files, endsWith (toLowerCase (file_name f)) ".pdf" = false →
            file_zip f = Ok files →
            length (pr_chunks r) = length (filter epub_section files)).
Proof.
  unfold parse_upload. intros Hr.
  destruct (endsWith (toLowerCase (file_name f)) ".pdf").
  - destruct (file_pdf f) as [pdf|]; [|done]. injection Hr as <-.
    destruct (parsePdf_lengths (file_name f) pdf) as [Hc Hl].
    split; [congruence|]. split; [|done].
    intros pdf' _ [= <-]. split; [done|]. intros Hn. rewrite Hc.
    apply Nat.div_le_lower_bound; lia.
  - destruct (endsWith _ ".epub"); [|done].
    destruct (file_zip f) as [files|]; [|done]. injection Hr as <-.
    destruct (parseEpub_lengths (file_name f) files) as [Hc Hl].
    split; [congruence|]. split; [done|].
    by intros files' _ [= <-].
Qed.

Lemma parsed_upload_segments_witness :
  length (pr_chunks (parsePdf "My Book.pdf" sample_pdf))
    = length (pr_locations (parsePdf "My Book.pdf" sample_pdf)) ∧
  length (pr_chunks (parsePdf "My Book.pdf" sample_pdf)) = (7 + 2) / 3 ∧
  1 ≤ length (pr_chunks (parsePdf "My Book.pdf" sample_pdf)).
Proof.
  destruct (parsed_upload_segments sample_file (parsePdf "My Book.pdf" sample_pdf))
    as (Heq & Hpdf & _).
  - vm_compute; reflexivity.
  - destruct (Hpdf sample_pdf) as [Hn Hpos];
      [vm_compute; reflexivity | vm_compute; reflexivity |].
    split; [exact Heq|]. split; [exact Hn|]. apply Hpos. vm_compute. lia.
Defined.

(** C9, counterexample. The archive parses, and the document has no
    segment. *)
Lemma epub_without_sections_has_no_segment :
  parse_upload sample_epub = Ok (mkParseResult "Thin" [] []) ∧
  ¬ (1 ≤ length (pr_chunks (mkParseResult "Thin" [] []))).
Proof. split; [vm_compute; reflexivity|]. simpl. lia. Qed.

(** * Further properties *)

(** ** Strings *)

Lemma string_app_cons (x : ascii) (a b : string) :
  String x a +:+ b = String x (a +:+ b).
Proof. reflexivity. Qed.

Lemma string_app_assoc (a b c : string) : (a +:+ b) +:+ c = a +:+ (b +:+ c).
Proof.
  induction a as [|x a IH]; [done|]. by rewrite !string_app_cons, IH.
Qed.

Lemma string_app_nil_r (a : string) : a +:+ "" = a.
Proof. induction a as [|x a IH]; [done|]. by rewrite string_app_cons, IH. Qed.

Lemma string_length_app (a b : string) :
  String.length (a +:+ b) = String.length a + String.length b.
Proof.
  induction a as [|x a IH]; [done|]. rewrite string_app_cons. simpl. by rewrite IH.
Qed.

Lemma concat_strings_app l1 l2 :
  concat_strings (l1 ++ l2) = concat_strings l1 +:+ concat_strings l2.
Proof.
  unfold concat_strings. induction l1 as [|x l1 IH]; simpl; [done|].
  rewrite IH. symmetry. apply string_app_assoc.
Qed.

Lemma concat_strings_snoc l x : concat_strings (l ++ [x]) = concat_strings l +:+ x.
Proof. rewrite concat_strings_app. simpl. by rewrite string_app_nil_r. Qed.

Lemma substring_0_all s n : String.length s ≤ n → String.substring 0 n s = s.
Proof.
  revert n. induction s as [|c s IH]; intros [|n] Hn; simpl in *; try done; try lia.
  rewrite IH; [done|lia].
Qed.

Lemma substring_empty n m : String.substring n m "" = "".
Proof. by destruct n, m. Qed.

Lemma substring_split s a b :
  a ≤ b →
  String.substring 0 a s +:+ String.substring a (b - a) s = String.substring 0 b s.
Proof.
  revert a b. induction s as [|c s IH]; intros a b Hab.
  - by rewrite !substring_empty.
  - destruct a as [|a].
    + rewrite Nat.sub_0_r. reflexivity.
    + destruct b as [|b]; [lia|].
      change (String c (String.substring 0 a s +:+ String.substring a (b - a) s)
              = String c (String.substring 0 b s)).
      f_equal. apply IH. lia.
Qed.

Lemma length_substring s n m :
  String.length (String.substring n m s) = m `min` (String.length s - n).
Proof.
  revert n m. induction s as [|c s IH]; intros [|n] [|m];
    cbn [String.substring String.length]; rewrite ?IH; lia.
Qed.

Lemma index_ge n pat s m : String.index n pat s = Some m → n ≤ m.
Proof.
  revert n m. induction s as [|c s IH]; intros [|n] m; simpl; try lia; try done.
  destruct (String.index n pat s) as [k|] eqn:Hk; [|done].
  intros [= <-]. apply IH in Hk. lia.
Qed.

Lemma index_end n pat s m :
  String.index n pat s = Some m → m + String.length pat ≤ String.length s ∨ pat = "".
Proof.
  intros H. apply String.index_correct1 in H.
  assert (String.length (String.substring m (String.length pat) s)
          = String.length pat) as Hlen by (by rewrite H).
  rewrite length_substring in Hlen.
  destruct pat; [by right|]. left. cbn [String.length] in *. lia.
Qed.

(** ** [chunkText] *)

Section ChunkText.
Variables (text : string) (chunkSize : nat).

(** What one iteration chooses as the end of the chunk. *)
Lemma chunkText_loop_spec fuel startIndex chunks :
  1 ≤ chunkSize →
  String.length text - startIndex < fuel →
  concat_strings chunks = String.substring 0 startIndex text →
  Forall (λ c, 1 ≤ String.length c < chunkSize + 1000) chunks →
  ∃ result,
    chunkText_loop fuel text chunkSize startIndex chunks = Some result ∧
    concat_strings result = text ∧
    Forall (λ c, 1 ≤ String.length c < chunkSize + 1000) result.
Proof.
  intros Hsize. revert startIndex chunks.
  induction fuel as [|fuel IH]; intros startIndex chunks Hfuel Hcat Hall; [lia|].
  simpl. destruct (startIndex <? String.length text) eqn:Hlt.
  - apply Nat.ltb_lt in Hlt.
    set (end0 := startIndex + chunkSize).
    set (endIndex :=
      if end0 <? String.length text
      then match indexOf newline2 end0 text with
           | Some nextNewline =>
               if nextNewline <? end0 + 1000 then nextNewline else end0
           | None => end0
           end
      else end0).
    assert (end0 ≤ endIndex < end0 + 1000) as Hend.
    { subst endIndex. destruct (end0 <? _); [|lia].
      destruct (indexOf newline2 end0 text) as [nn|] eqn:Hidx; [|lia].
      apply index_ge in Hidx.
      destruct (nn <? end0 + 1000) eqn:Hnn; [apply Nat.ltb_lt in Hnn|]; lia. }
    apply IH.
    + lia.
    + rewrite concat_strings_snoc, Hcat. unfold js_slice.
      apply substring_split. lia.
    + apply Forall_app. split; [done|]. constructor; [|done].
      unfold js_slice. rewrite length_substring. lia.
  - apply Nat.ltb_ge in Hlt. eexists. split; [done|]. split; [|done].
    rewrite Hcat. by apply substring_0_all.
Qed.

(** With no chunk size the loop never leaves a text that has a character. *)
Lemma chunkText_loop_zero fuel startIndex chunks :
  chunkSize = 0 →
  startIndex < String.length text →
  chunkText_loop fuel text chunkSize startIndex chunks = None.
Proof.
  intros ->. revert startIndex chunks.
  induction fuel as [|fuel IH]; intros startIndex chunks Hlt; [done|].
  simpl. rewrite (proj2 (Nat.ltb_lt _ _) Hlt).
  apply IH. rewrite Nat.add_0_r, (proj2 (Nat.ltb_lt _ _) Hlt).
  destruct (indexOf newline2 startIndex text) as [nn|] eqn:Hidx; [|lia].
  destruct (nn <? _); [|lia].
  apply index_end in Hidx as [Hidx|Hidx]; [|discriminate Hidx].
  change (String.length newline2) with 2 in Hidx. lia.
Qed.
End ChunkText.

(** X1. [chunkText] with a chunk size of at least one ends, within
    [length text + 1] iterations, and cuts the text without loss: the chunks
    joined give the text back, none is empty, and none is as long as the
    chunk size plus 1000. *)
Theorem chunkText_lossless (text : string) (chunkSize : nat) :
  1 ≤ chunkSize →
  ∃ chunks,
    chunkText (S (String.length text)) text chunkSize = Some chunks ∧
    concat_strings chunks = text ∧
    Forall (λ c, 1 ≤ String.length c < chunkSize + 1000) chunks.
Proof.
  intros Hsize. apply chunkText_loop_spec; [done|lia| |constructor].
  by destruct text.
Qed.

Lemma chunkText_lossless_witness :
  ∃ chunks,
    chunkText 12 "It was the." 4 = Some chunks ∧
    concat_strings chunks = "It was the." ∧
    Forall (λ c, 1 ≤ String.length c < 4 + 1000) chunks.
Proof. apply (chunkText_lossless "It was the." 4). lia. Defined.

(** X2. With a chunk size of zero [chunkText] does not return on any text
    that has a character: no number of iterations is enough. *)
Theorem chunkText_zero_size_diverges (text : string) (fuel : nat) :
  text ≠ "" → chunkText fuel text 0 = None.
Proof.
  intros Htext. apply chunkText_loop_zero; [done|].
  destruct text; [done|simpl; lia].
Qed.

Lemma chunkText_zero_size_diverges_witness : chunkText 1000 "a" 0 = None.
Proof. apply chunkText_zero_size_diverges. discriminate. Defined.

(** ** [parsePdf]: which pages go where *)

Lemma fold_left_append_strings {A} (f : A → string) (l : list A) (init : string) :
  fold_left (λ acc p, acc +:+ f p) l init = init +:+ concat_strings (f <$> l).
Proof.
  revert init. induction l as [|x l IH]; intros init; simpl.
  - by rewrite string_app_nil_r.
  - by rewrite IH, string_app_assoc.
Qed.

(** The pages from [i] on are the group of [i] followed by the pages from
    [i + 3] on. *)
Lemma pages_text_split pdf i :
  i ≤ numPages pdf →
  pages_text pdf i (numPages pdf) =
  pages_text pdf i ((i + 2) `min` numPages pdf) +:+
  pages_text pdf (i + 3) (numPages pdf).
Proof.
  intros Hi. unfold pages_text. rewrite <- concat_strings_app, <- fmap_app.
  do 2 f_equal.
  destruct (decide (i + 2 ≤ numPages pdf)) as [Hle|Hgt].
  - rewrite Nat.min_l by done.
    replace (S (numPages pdf) - i)
      with (S (i + 2) - i + (S (numPages pdf) - (i + 3))) by lia.
    rewrite seq_app. do 2 f_equal. lia.
  - rewrite Nat.min_r by lia.
    replace (S (numPages pdf) - (i + 3)) with 0 by lia.
    by rewrite app_nil_r.
Qed.

Lemma parsePdf_loop_closed pdf i chunks locations :
  let group j := (i + 3 * j, (i + 3 * j + 2) `min` numPages pdf) in
  let groups := group <$> seq 0 ((numPages pdf + 3 - i) / 3) in
  parsePdf_loop pdf i chunks locations =
  (chunks ++ ((λ g, pages_text pdf g.1 g.2) <$> groups),
   locations ++ ((λ g, pages_label g.1 g.2) <$> groups)).
Proof.
  funelim (parsePdf_loop pdf i chunks locations); cbn zeta.
  - clear Heq Heqcall. cbn zeta in H. rewrite H. clear H.
    replace ((numPages pdf + 3 - i) / 3)
      with (S ((numPages pdf + 3 - (i + 3)) / 3)).
    2:{ replace (numPages pdf + 3 - i)
          with (numPages pdf + 3 - (i + 3) + 1 * 3) by lia.
        rewrite Nat.div_add by lia. lia. }
    rewrite <- cons_seq, <- fmap_S_seq, !fmap_cons, <- !list_fmap_compose.
    rewrite <- !(assoc_L (++)). simpl.
    rewrite fold_left_append_strings. unfold pages_text at 1, pages_label at 1.
    rewrite Nat.add_0_r. simpl.
    apply (f_equal2 pair); apply (f_equal (app _)); apply (f_equal2 cons);
      try reflexivity;
      apply list_fmap_ext; intros ? j _; unfold compose; simpl;
      by replace (i + 3 + (j + (j + (j + 0))))
           with (i + S (j + S (j + S (j + 0)))) by lia.
  - rewrite Nat.div_small by lia. simpl. by rewrite !app_nil_r.
Qed.

(** X3. The j-th chunk of a PDF is the text of the pages [3j+1 .. 3j+3], cut
    at the last page, and the j-th location is the label of exactly these
    pages. *)
Theorem parsePdf_chunk_and_label (name : string) (pdf : PdfDocument) (j : nat) :
  j < (numPages pdf + 2) / 3 →
  let first := 3 * j + 1 in
  let last := (3 * j + 3) `min` numPages pdf in
  pr_chunks (parsePdf name pdf) !! j = Some (pages_text pdf first last) ∧
  pr_locations (parsePdf name pdf) !! j = Some (pages_label first last).
Proof.
  intros Hj first last. unfold parsePdf.
  rewrite (parsePdf_loop_closed pdf 1 [] []). cbn [pr_chunks pr_locations app].
  replace (numPages pdf + 3 - 1) with (numPages pdf + 2) by lia.
  rewrite !list_lookup_fmap, lookup_seq_lt by done. cbn [fmap option_fmap option_map fst snd].
  subst first last.
  replace (0 + j) with j by lia.
  replace (1 + 3 * j) with (3 * j + 1) by lia.
  by replace (3 * j + 1 + 2) with (3 * j + 3) by lia.
Qed.

Lemma parsePdf_chunk_and_label_witness :
  pr_chunks (parsePdf "My Book.pdf" sample_pdf) !! 2
    = Some (pages_text sample_pdf 7 (9 `min` 7)) ∧
  pr_locations (parsePdf "My Book.pdf" sample_pdf) !! 2
    = Some (pages_label 7 (9 `min` 7)).
Proof.
  apply (parsePdf_chunk_and_label "My Book.pdf" sample_pdf 2). vm_compute. lia.
Defined.

Lemma parsePdf_loop_concat pdf i chunks locations :
  concat_strings (parsePdf_loop pdf i chunks locations).1 =
  concat_strings chunks +:+ pages_text pdf i (numPages pdf).
Proof.
  funelim (parsePdf_loop pdf i chunks locations); cbn zeta.
  - clear Heq Heqcall. cbn zeta in H. rewrite H. clear H.
    rewrite concat_strings_snoc, fold_left_append_strings, string_app_assoc.
    by rewrite (pages_text_split pdf i l).
  - unfold pages_text. replace (S (numPages pdf) - i) with 0 by lia.
    simpl. by rewrite string_app_nil_r.
Qed.

(** X4. The chunks of a PDF, joined, are the text of all its pages in page
    order: no page is left out and none is read twice. *)
Theorem parsePdf_covers_every_page (name : string) (pdf : PdfDocument) :
  concat_strings (pr_chunks (parsePdf name pdf)) =
  concat_strings (page_text pdf <$> seq 1 (numPages pdf)).
Proof.
  unfold parsePdf.
  pose proof (parsePdf_loop_concat pdf 1 [] []) as H.
  destruct (parsePdf_loop pdf 1 [] []) as [chunks locations]. simpl in *.
  rewrite H. unfold pages_text. by rewrite Nat.sub_succ, Nat.sub_0_r.
Qed.

(** ** The stable sort sorts *)

Section SortSorted.
Context {A : Type} (cmp : A → A → Z).
Hypothesis cmp_asym : ∀ a b, (cmp a b < 0)%Z → (0 ≤ cmp b a)%Z.
Hypothesis cmp_trans :
  ∀ a b c, (0 ≤ cmp b a)%Z → (0 ≤ cmp c b)%Z → (0 ≤ cmp c a)%Z.

Lemma sort_insert_sorted x l :
  StronglySorted (λ a b, (0 ≤ cmp b a)%Z) l →
  StronglySorted (λ a b, (0 ≤ cmp b a)%Z) (sort_insert cmp x l).
Proof.
  induction 1 as [|y l Hl IH Hy]; simpl; [repeat constructor|].
  destruct (cmp x y <? 0)%Z eqn:Hxy.
  - apply Z.ltb_lt in Hxy. constructor; [by constructor|].
    constructor; [by apply cmp_asym|].
    eapply Forall_impl; [exact Hy|]. intros w Hw.
    eapply cmp_trans; [|exact Hw]. by apply cmp_asym.
  - apply Z.ltb_ge in Hxy. constructor; [done|].
    rewrite sort_insert_Permutation. by constructor.
Qed.

Lemma js_sort_StronglySorted l :
  StronglySorted (λ a b, (0 ≤ cmp b a)%Z) (js_sort cmp l).
Proof.
  induction l as [|x l IH] using rev_ind; [constructor|].
  rewrite js_sort_snoc. by apply sort_insert_sorted.
Qed.
End SortSorted.

Lemma StronglySorted_filter {A} (R : relation A) (P : A → Prop)
    `{∀ x, Decision (P x)} (l : list A) :
  StronglySorted R l → StronglySorted R (filter P l).
Proof.
  induction 1 as [|x l Hl IH Hx]; [constructor|].
  rewrite filter_cons. destruct (decide (P x)); [|done].
  constructor; [done|].
  apply Forall_forall. intros y [_ Hy]%list_elem_of_filter.
  by eapply Forall_forall in Hx.
Qed.

Lemma StronglySorted_weaken {A} (R1 R2 : relation A) (l : list A) :
  (∀ a b, R1 a b → R2 a b) → StronglySorted R1 l → StronglySorted R2 l.
Proof.
  intros HR. induction 1 as [|x l Hl IH Hx]; constructor; [done|].
  eapply Forall_impl; [exact Hx|]. intros y. apply HR.
Qed.

(** ** [parseEpub]: which entries, in which order *)

Lemma compare_names_asym a b :
  (compare_names a b < 0)%Z → (0 ≤ compare_names b a)%Z.
Proof.
  unfold compare_names.
  rewrite (String.compare_antisym (ze_name a) (ze_name b)).
  by destruct (String.compare (ze_name b) (ze_name a)).
Qed.

Lemma compare_names_le a b :
  (0 ≤ compare_names b a)%Z ↔ String.le (ze_name a) (ze_name b).
Proof.
  unfold compare_names, String.le, String.leb.
  rewrite (String.compare_antisym (ze_name a) (ze_name b)).
  destruct (String.compare (ze_name b) (ze_name a)); simpl; split; try done; lia.
Qed.

Lemma compare_names_trans a b c :
  (0 ≤ compare_names b a)%Z → (0 ≤ compare_names c b)%Z →
  (0 ≤ compare_names c a)%Z.
Proof. rewrite !compare_names_le. apply transitivity. Qed.

Lemma parseEpub_fold l chunks locations count :
  fold_left parseEpub_step l (chunks, locations, count) =
  (chunks ++ (ze_text <$> filter epub_section l),
   locations ++ ((λ i, "Section " +:+ pretty i) <$>
                 seq (S count) (length (filter epub_section l))),
   count + length (filter epub_section l)).
Proof.
  revert chunks locations count.
  induction l as [|e l IH]; intros chunks locations count; simpl.
  - by rewrite !app_nil_r, Nat.add_0_r.
  - rewrite filter_cons.
    destruct (decide (epub_section e)) as [[Hext Hlen]|Hno].
    + rewrite Hext, (proj2 (Nat.ltb_lt _ _) Hlen), IH. simpl.
      rewrite <- !(assoc_L (++)). simpl. do 2 f_equal. lia.
    + destruct (_ || _) eqn:Hext; [|apply IH].
      destruct (100 <? _) eqn:Hlen; [|apply IH].
      destruct Hno. split; [done|]. by apply Nat.ltb_lt.
Qed.

(** X5. The segments of an EPUB are the texts of the markup entries with more
    than 100 characters of trimmed text, in ascending order of entry name
    whatever their order in the archive; the locations number them
    [Section 1], [Section 2], ... without a gap. *)
Theorem parseEpub_sections (name : string) (files : list ZipEntry) :
  let kept := epub_kept files in
  pr_chunks (parseEpub name files) = ze_text <$> kept ∧
  pr_locations (parseEpub name files) =
    (λ i, "Section " +:+ pretty i) <$> seq 1 (length kept) ∧
  kept ≡ₚ filter epub_section files ∧
  StronglySorted (λ a b, String.le (ze_name a) (ze_name b)) kept.
Proof.
  intros kept. subst kept. unfold parseEpub, epub_kept.
  rewrite parseEpub_fold. simpl. repeat split.
  - by rewrite js_sort_Permutation.
  - apply StronglySorted_filter.
    eapply StronglySorted_weaken;
      [|apply (js_sort_StronglySorted compare_names)].
    + intros a b. apply compare_names_le.
    + apply compare_names_asym.
    + apply compare_names_trans.
Qed.

(** ** The ledger stays in order and free of duplicates *)

Lemma compare_notes_asym a b :
  (compare_notes a b < 0)%Z → (0 ≤ compare_notes b a)%Z.
Proof. unfold compare_notes. repeat case_bool_decide; lia. Qed.

Lemma compare_notes_trans a b c :
  (0 ≤ compare_notes b a)%Z → (0 ≤ compare_notes c b)%Z →
  (0 ≤ compare_notes c a)%Z.
Proof. unfold compare_notes. repeat case_bool_decide; lia. Qed.

Lemma find_note_None_inv (id : string) (l : list NoteItem) :
  List.find (λ n, bool_decide (nt_id n = id)) l = None → id ∉ nt_id <$> l.
Proof.
  induction l as [|y l IH]; simpl; [intros _; apply not_elem_of_nil|].
  case_bool_decide as Hy; [done|]. intros Hl.
  apply not_elem_of_cons. split; [done|]. by apply IH.
Qed.

Lemma NoDup_fmap_filter {A B} (f : A → B) (P : A → Prop)
    `{∀ x, Decision (P x)} (l : list A) :
  NoDup (f <$> l) → NoDup (f <$> filter P l).
Proof.
  induction l as [|x l IH]; [done|]. rewrite fmap_cons, NoDup_cons.
  intros [Hx Hl]. rewrite filter_cons. destruct (decide (P x)); [|by apply IH].
  rewrite fmap_cons. apply NoDup_cons. split; [|by apply IH].
  intros (y & Hy & [_ Hin]%list_elem_of_filter)%list_elem_of_fmap.
  apply Hx. rewrite Hy. by apply list_elem_of_fmap_2.
Qed.

Lemma toggleNote_ledger_ok n s :
  ledger_ok (notes s) → ledger_ok (notes (toggleNote n s)).
Proof.
  intros [Hs Hd]. rewrite notes_toggleNote.
  destruct (List.find _ _) eqn:Hfind.
  - split; [by apply StronglySorted_filter | by apply NoDup_fmap_filter].
  - apply find_note_None_inv in Hfind.
    rewrite js_sort_snoc, (js_sort_sorted _ _ Hs). split.
    + apply sort_insert_sorted;
        [apply compare_notes_asym | apply compare_notes_trans | done].
    + rewrite sort_insert_Permutation, fmap_cons. by apply NoDup_cons.
Qed.

Lemma retag_ledger_ok (id : string) (tags : list string) (l : list NoteItem) :
  ledger_ok l →
  ledger_ok ((λ n, if bool_decide (nt_id n = id) then note_with_tags tags n else n)
               <$> l).
Proof.
  intros [Hs Hd]. split.
  - unfold ledger_sorted. eapply StronglySorted_fmap; [|exact Hs].
    intros a b Hab. unfold compare_notes in *.
    by destruct (bool_decide (nt_id a = id)), (bool_decide (nt_id b = id)).
  - rewrite <- list_fmap_compose.
    erewrite list_fmap_ext; [exact Hd|].
    intros ? n _. simpl. by destruct (bool_decide _).
Qed.

Lemma updateNuggetTags_notes id tags s :
  notes (updateNuggetTags id tags s) =
  (λ n, if bool_decide (nt_id n = id) then note_with_tags tags n else n) <$> notes s.
Proof. unfold updateNuggetTags. by destruct (currentChapterData s). Qed.

Lemma updateNuggetTags_localStorage id tags s :
  localStorage (updateNuggetTags id tags s) = localStorage s.
Proof. unfold updateNuggetTags. by destruct (currentChapterData s). Qed.

Lemma store_ok_insert store k snap :
  store_ok store → ledger_ok (sn_notes snap) → store_ok (<[k := snap]> store).
Proof.
  intros Hstore Hsnap k' snap'. rewrite lookup_insert.
  case_decide; [by intros [= <-]|apply Hstore].
Qed.

Lemma store_ok_delete store k : store_ok store → store_ok (delete k store).
Proof.
  intros Hstore k' snap'. rewrite lookup_delete.
  case_decide; [done|apply Hstore].
Qed.

Lemma ledger_ok_nil : ledger_ok [].
Proof. split; constructor. Qed.

Lemma handle_ledger_ok e s :
  ledger_ok (notes s) → store_ok (localStorage s) →
  ledger_ok (notes (handle e s)) ∧ store_ok (localStorage (handle e s)).
Proof.
  intros Hn Hst.
  destruct e as [|f|i| | |t|n|i tags|i input|i tag|c| |k reply|k]; cbn [handle];
    try done.
  - unfold handleFileUpload_end. by destruct (parse_upload f).
  - unfold toggleNuggetTypePreference, analyzeChapter. simpl.
    destruct (book s); [|done]. by destruct (_ !! _).
  - split; [by apply toggleNote_ledger_ok|].
    unfold toggleNote. by destruct (List.find _ _).
  - rewrite updateNuggetTags_notes, updateNuggetTags_localStorage.
    split; [by apply retag_ledger_ok|done].
  - unfold handleAddTag. repeat case_match; try done.
    rewrite updateNuggetTags_notes, updateNuggetTags_localStorage.
    split; [by apply retag_ledger_ok|done].
  - unfold removeTag. case_match; [|done].
    rewrite updateNuggetTags_notes, updateNuggetTags_localStorage.
    split; [by apply retag_ledger_ok|done].
  - unfold downloadNotes. repeat case_match; try done; simpl;
      (split; [apply ledger_ok_nil|]); try done.
    by apply store_ok_delete.
  - split; [apply ledger_ok_nil|done].
  - destruct (pending s !! k) as [rq|]; [|done].
    unfold analyzeChapter_resume, prefetchNext_resume.
    destruct (rq_kind rq); by destruct (scan_for _ _ _) as [[??]|].
  - destruct (timers s !! k) as [tm|]; [|done].
    unfold prefetchNext. simpl. by destruct (_ || _).
Qed.

Lemma effects_ledger_ok prev cur :
  ledger_ok (notes cur) → store_ok (localStorage cur) →
  ledger_ok (notes (effects prev cur)) ∧ store_ok (localStorage (effects prev cur)).
Proof.
  intros Hn Hst.
  assert (store_ok (localStorage (persist cur))) as Hst'.
  { unfold persist. destruct (storageKey cur); [|done].
    by apply store_ok_insert. }
  unfold effects.
  set (s2 := if bool_decide (analyze_deps prev = analyze_deps cur) then persist cur
             else if isAnalyzing cur then persist cur
             else analyzeChapter cur (currentChapterIndex cur) (persist cur)).
  assert (notes s2 = notes cur ∧ localStorage s2 = localStorage (persist cur))
    as [Hn2 Hl2].
  { subst s2. destruct (analyzeChapter_saved cur (currentChapterIndex cur) (persist cur))
      as [Hl _].
    assert (notes (analyzeChapter cur (currentChapterIndex cur) (persist cur))
            = notes cur) as Hnn
      by (unfold analyzeChapter; repeat case_match; simpl; by rewrite ?persist_notes).
    repeat case_match; by rewrite ?Hl, ?Hnn, ?persist_notes. }
  destruct (if bool_decide (storageKey prev = storageKey cur) then None
            else storageKey cur ≫= (λ k, localStorage cur !! k))
    as [parsed|] eqn:Hsaved; simpl.
  - rewrite Hl2. split; [|done].
    case_bool_decide; [done|].
    destruct (storageKey cur) as [k|]; [|done]. simpl in Hsaved.
    by eapply Hst.
  - by rewrite Hn2, Hl2.
Qed.

Lemma step_ledger_ok s e :
  ledger_ok (notes s) → store_ok (localStorage s) →
  ledger_ok (notes (step s e)) ∧ store_ok (localStorage (step s e)).
Proof.
  intros Hn Hst. unfold step, commit.
  destruct (handle_ledger_ok e s Hn Hst) as [Hn1 Hst1].
  destruct (effects_ledger_ok s (handle e s) Hn1 Hst1) as [Hn2 Hst2].
  by apply effects_ledger_ok.
Qed.



(** ** The busy indicator and the range of speculative requests *)

Lemma requests_inv_frame s s' :
  isAnalyzing s' = isAnalyzing s → pending s' = pending s → timers s' = timers s →
  requests_inv s → requests_inv s'.
Proof.
  unfold requests_inv, direct_in_flight. by intros -> -> ->.
Qed.

Lemma analyzeChapter_requests_inv r i s :
  requests_inv s → requests_inv (analyzeChapter r i s).
Proof.
  intros (Ha & Hp & Ht). unfold analyzeChapter.
  destruct (book r) as [b|]; [|done].
  destruct (cachedChapters s !! i) as [data|].
  - split; [exact Ha|]. split; [exact Hp|]. simpl.
    apply Forall_app. split; [done|]. apply Forall_singleton. simpl. lia.
  - unfold requests_inv, direct_in_flight. simpl. split; [|split; [|done]].
    + intros _. rewrite filter_app, length_app, filter_cons_True by done.
      simpl. lia.
    + apply Forall_app. split; [done|]. by apply Forall_singleton.
Qed.

Lemma persist_requests_inv s : requests_inv s → requests_inv (persist s).
Proof.
  apply requests_inv_frame; unfold persist; by destruct (storageKey s).
Qed.

Lemma effects_requests_inv prev cur :
  requests_inv cur → requests_inv (effects prev cur).
Proof.
  intros Hcur. unfold effects.
  set (s2 := if bool_decide (analyze_deps prev = analyze_deps cur) then persist cur
             else if isAnalyzing cur then persist cur
             else analyzeChapter cur (currentChapterIndex cur) (persist cur)).
  assert (requests_inv s2) as H2.
  { subst s2. repeat case_match; try by apply persist_requests_inv.
    by apply analyzeChapter_requests_inv, persist_requests_inv. }
  by destruct (if bool_decide (storageKey prev = storageKey cur) then None
               else storageKey cur ≫= (λ k, localStorage cur !! k)).
Qed.

Lemma handle_plain_busy e s :
  plain_event e = true →
  isAnalyzing (handle e s) = isAnalyzing s ∧ timers (handle e s) = timers s.
Proof.
  destruct e; try done; intros _; cbn [handle];
    unfold handleFileUpload_end, toggleNote, handleAddTag, removeTag,
      updateNuggetTags, downloadNotes;
    repeat case_match; by simpl.
Qed.

Lemma handle_requests_inv e s :
  requests_inv s → requests_inv (handle e s).
Proof.
  intros Hs. destruct (plain_event e) eqn:Hplain.
  { destruct (handle_plain e s Hplain) as [Hp _].
    destruct (handle_plain_busy e s Hplain) as [Ha Ht].
    by apply (requests_inv_frame s). }
  destruct e as [|f|i| | |t|n|i tags|i input|i tag|c| |k reply|k]; try done;
    cbn [handle].
  - apply analyzeChapter_requests_inv. revert Hs. by apply requests_inv_frame.
  - destruct (pending s !! k) as [rq|] eqn:Hk; [|done].
    destruct Hs as (Ha & Hp & Ht).
    assert (Forall prefetch_in_range (delete k (pending s))) as Hp'
      by by apply Forall_delete.
    unfold analyzeChapter_resume, prefetchNext_resume.
    destruct (rq_kind rq) eqn:Hkind;
      destruct (scan_for _ _ _) as [[data usage]|err];
      unfold requests_inv, direct_in_flight; simpl;
      (split; [|split; [done|]]); try done;
      try (apply Forall_app; split; [done|]; apply Forall_singleton; simpl; lia).
    all: intros Hbusy; specialize (Ha Hbusy); unfold direct_in_flight in Ha;
      rewrite (filter_delete_length _ _ _ _ Hk);
      rewrite decide_False by (by rewrite Hkind); lia.
  - destruct (timers s !! k) as [tm|] eqn:Hk; [|done].
    destruct Hs as (Ha & Hp & Ht).
    assert (1 ≤ tm_index tm) as Htm
      by (eapply (proj1 (Forall_lookup _ _) Ht); exact Hk).
    assert (Forall (λ tm, 1 ≤ tm_index tm) (delete k (timers s))) as Ht'
      by by apply Forall_delete.
    unfold prefetchNext. simpl.
    destruct (bool_decide (length _ ≤ tm_index tm)) eqn:Hlen; simpl; [done|].
    destruct (bool_decide (is_Some _)); simpl; [done|].
    destruct (isPrefetching s); [done|].
    apply bool_decide_eq_false in Hlen.
    unfold requests_inv, direct_in_flight. simpl. split; [|split; [|done]].
    + intros Hbusy. specialize (Ha Hbusy). unfold direct_in_flight in Ha.
      rewrite filter_app, length_app. lia.
    + apply Forall_app. split; [done|]. apply Forall_singleton.
      intros _. simpl. lia.
Qed.

Lemma reachable_requests_inv store s : reachable store s → requests_inv s.
Proof.
  induction 1 as [|s e _ IH].
  - unfold requests_inv, direct_in_flight. simpl. repeat split; by try constructor.
  - unfold step, commit. by apply effects_requests_inv, effects_requests_inv,
      handle_requests_inv.
Qed.

(** X7. While the analysing indicator is shown, a direct fetch is pending:
    some reply will arrive and clear it. *)
Theorem analysing_indicator_has_a_pending_fetch
    (store : gmap string Snapshot) (s : State) :
  reachable store s → isAnalyzing s = true →
  ∃ k rq, pending s !! k = Some rq ∧ rq_kind rq = Direct.
Proof.
  intros Hs Hbusy. destruct (reachable_requests_inv _ _ Hs) as (Ha & _).
  specialize (Ha Hbusy). unfold direct_in_flight in Ha.
  destruct (filter _ (pending s)) as [|rq l] eqn:Hf; [simpl in Ha; lia|].
  assert (rq ∈ filter (λ rq, rq_kind rq = Direct) (pending s)) as Hin
    by (rewrite Hf; left).
  apply list_elem_of_filter in Hin as [Hkind [k Hk]%list_elem_of_lookup].
  by exists k, rq.
Qed.

Lemma analysing_indicator_has_a_pending_fetch_witness :
  ∃ k rq, pending sample_opened !! k = Some rq ∧ rq_kind rq = Direct.
Proof.
  apply (analysing_indicator_has_a_pending_fetch ∅ sample_opened).
  - apply reachable_run, reachable_init.
  - vm_compute. reflexivity.
Defined.

(** X8. A speculative request is only ever pending for a segment that its
    book has and that is not the first one. *)
Theorem prefetch_targets_a_later_segment_of_the_book
    (store : gmap string Snapshot) (s : State) (k : nat) (rq : Request) :
  reachable store s → pending s !! k = Some rq → rq_kind rq = Prefetch →
  1 ≤ rq_index rq < length (bk_chapters (cl_book (rq_closure rq))).
Proof.
  intros Hs Hk Hkind. destruct (reachable_requests_inv _ _ Hs) as (_ & Hp & _).
  by apply (proj1 (Forall_lookup _ _) Hp k rq Hk).
Qed.

Lemma prefetch_targets_a_later_segment_of_the_book_witness :
  ∃ rq, pending (step sample_displayed (TimerFire 0)) !! 0 = Some rq ∧
        1 ≤ rq_index rq < length (bk_chapters (cl_book (rq_closure rq))).
Proof.
  eexists. split; [vm_compute; reflexivity|].
  refine (prefetch_targets_a_later_segment_of_the_book ∅
            (step sample_displayed (TimerFire 0)) 0 _ _ _ _).
  - apply reachable_step, reachable_step, reachable_run, reachable_init.
  - vm_compute. reflexivity.
  - reflexivity.
Defined.

(** ** What the cache and the view hold *)

Lemma updateNuggetTags_currentChapterData id tags s :
  currentChapterData (updateNuggetTags id tags s) =
  retagged id tags <$> currentChapterData s.
Proof.
  unfold updateNuggetTags, retagged.
  destruct (currentChapterData s) as [d|] eqn:E; simpl; by rewrite ?E.
Qed.

Lemma updateNuggetTags_cachedChapters id tags s :
  cachedChapters (updateNuggetTags id tags s) = cachedChapters s.
Proof. unfold updateNuggetTags. by destruct (currentChapterData s). Qed.

Section CacheInvariant.
Variable P : nat → ChapterData → Prop.
Hypothesis P_scan : ∀ i cl reply d u, scan_for i cl reply = Ok (d, u) → P i d.
Hypothesis P_retag : ∀ i d id tags, P i d → P i (retagged id tags d).

Lemma cache_inv_frame s s' :
  cachedChapters s' = cachedChapters s →
  currentChapterData s' = currentChapterData s →
  cache_inv P s → cache_inv P s'.
Proof. unfold cache_inv. by intros -> ->. Qed.

Lemma cache_inv_cleared s s' :
  cachedChapters s' = ∅ →
  currentChapterData s' = currentChapterData s ∨ currentChapterData s' = None →
  cache_inv P s → cache_inv P s'.
Proof.
  unfold cache_inv. intros -> Hd [_ Hs]. split.
  - intros i d. by rewrite lookup_empty.
  - by destruct Hd as [-> | ->].
Qed.

Lemma cache_inv_retag id tags s :
  cache_inv P s → cache_inv P (updateNuggetTags id tags s).
Proof.
  intros [Hc Hd]. split.
  - by rewrite updateNuggetTags_cachedChapters.
  - rewrite updateNuggetTags_currentChapterData. intros d.
    destruct (currentChapterData s) as [d0|]; [|done]. intros [= <-].
    destruct (Hd d0 eq_refl) as [i Hi]. exists i. by apply P_retag.
Qed.

Lemma analyzeChapter_cache_inv r i s :
  cache_inv P s → cache_inv P (analyzeChapter r i s).
Proof.
  intros [Hc Hd]. unfold analyzeChapter.
  destruct (book r) as [b|]; [|done].
  destruct (cachedChapters s !! i) as [data|] eqn:Hi; [|done].
  split; [done|]. simpl. intros d [= <-]. exists i. by apply Hc.
Qed.

Lemma effects_cache_inv prev cur : cache_inv P cur → cache_inv P (effects prev cur).
Proof.
  intros Hcur. unfold effects.
  assert (cache_inv P (persist cur)) as Hp.
  { revert Hcur. apply cache_inv_frame; unfold persist; by destruct (storageKey cur). }
  set (s2 := if bool_decide (analyze_deps prev = analyze_deps cur) then persist cur
             else if isAnalyzing cur then persist cur
             else analyzeChapter cur (currentChapterIndex cur) (persist cur)).
  assert (cache_inv P s2) as H2.
  { subst s2. repeat case_match; try done. by apply analyzeChapter_cache_inv. }
  by destruct (if bool_decide (storageKey prev = storageKey cur) then None
               else storageKey cur ≫= (λ k, localStorage cur !! k)).
Qed.

Lemma handle_cache_inv e s : cache_inv P s → cache_inv P (handle e s).
Proof.
  intros Hs.
  destruct e as [|f|i| | |t|n|i tags|i input|i tag|c| |k reply|k]; cbn [handle].
  - apply (cache_inv_cleared s); [done|by left|done].
  - revert Hs. apply cache_inv_frame;
      unfold handleFileUpload_end; by destruct (parse_upload f).
  - done.
  - apply (cache_inv_cleared s); [done|by left|done].
  - apply (cache_inv_cleared s); [done|by left|done].
  - unfold toggleNuggetTypePreference. apply analyzeChapter_cache_inv.
    apply (cache_inv_cleared s); [done|by left|done].
  - revert Hs. apply cache_inv_frame; unfold toggleNote; by destruct (List.find _ _).
  - by apply cache_inv_retag.
  - unfold handleAddTag. destruct (bool_decide (js_trim input = "")); [done|].
    destruct (currentTags_of i s); [|done].
    destruct (bool_decide _); [done|]. by apply cache_inv_retag.
  - unfold removeTag. destruct (currentTags_of i s); [|done].
    by apply cache_inv_retag.
  - unfold downloadNotes. destruct (bool_decide _); [done|]. destruct c; [|done].
    by apply (cache_inv_cleared s); [| right |].
  - by apply (cache_inv_cleared s); [| right |].
  - destruct (pending s !! k) as [rq|]; [|done].
    destruct Hs as [Hc Hd].
    unfold analyzeChapter_resume, prefetchNext_resume.
    destruct (rq_kind rq);
      destruct (scan_for _ _ _) as [[data usage]|err] eqn:Hscan; try done;
      (split; simpl;
       [ intros i d; rewrite lookup_insert; case_decide;
         [intros [= <-]; subst i; by eapply P_scan | apply Hc]
       | ]); [|done].
    intros d [= <-]. eexists. by eapply P_scan.
  - destruct (timers s !! k) as [tm|]; [|done].
    revert Hs. apply cache_inv_frame; unfold prefetchNext; simpl;
      by destruct (_ || _).
Qed.

Lemma reachable_cache_inv store s : reachable store s → cache_inv P s.
Proof.
  induction 1 as [|s e _ IH].
  - split; simpl; [intros i d; by rewrite lookup_empty|done].
  - unfold step, commit.
    by apply effects_cache_inv, effects_cache_inv, handle_cache_inv.
Qed.
End CacheInvariant.

Lemma mapi_from_sortIndex chapterIndex locationLabel (l : list RawNugget) i :
  bn_sortIndex <$> mapi_from (make_nugget chapterIndex locationLabel) i l
  = seq i (length l).
Proof.
  revert i. induction l as [|x l IH]; intros i; [done|].
  simpl. by rewrite IH.
Qed.

Lemma length_mapi_from {A B} (f : A → nat → B) (l : list A) i :
  length (mapi_from f i l) = length l.
Proof. revert i. induction l as [|x l IH]; intros i; simpl; by rewrite ?IH. Qed.

Lemma scan_ranked i cl reply d u : scan_for i cl reply = Ok (d, u) → ranked d.
Proof.
  unfold scan_for, scanChapterForNuggets, ranked.
  destruct reply as [|response]; [done|].
  destruct (parse_body response) as [rawData|]; [|done].
  destruct (_ || _); [by intros [= <- _]|].
  destruct (rd_nuggets rawData) as [nuggets|]; [|done].
  intros [= <- _]. simpl. unfold mapi.
  by rewrite mapi_from_sortIndex, length_mapi_from.
Qed.

Lemma retagged_ranked id tags d : ranked d → ranked (retagged id tags d).
Proof.
  unfold ranked, retagged. simpl. intros Hd.
  rewrite length_fmap, <- Hd, <- list_fmap_compose.
  apply list_fmap_ext. intros ? n _. simpl. by destruct (bool_decide _).
Qed.

(** X9. The cards of the displayed segment, and the nuggets of every cached
    segment, carry the ranks 0, 1, 2, ... in their order: the rank the ledger
    sorts by is the position of the card. *)
Theorem displayed_cards_are_ranked_in_order
    (store : gmap string Snapshot) (s : State) :
  reachable store s →
  (∀ d, currentChapterData s = Some d → ranked d) ∧
  (∀ i d, cachedChapters s !! i = Some d → ranked d).
Proof.
  intros Hs.
  destruct (reachable_cache_inv (λ _, ranked) scan_ranked
              (λ _ d id tags, retagged_ranked id tags d) store s Hs) as [Hc Hd].
  split; [|exact Hc]. intros d Hsome. by destruct (Hd d Hsome).
Qed.

Lemma displayed_cards_are_ranked_in_order_witness :
  (∀ d, currentChapterData sample_displayed = Some d → ranked d) ∧
  (∀ i d, cachedChapters sample_displayed !! i = Some d → ranked d).
Proof.
  apply (displayed_cards_are_ranked_in_order ∅).
  apply reachable_step, reachable_run, reachable_init.
Defined.

Lemma pretty_N_char_digit x : is_digit (pretty_N_char x) = true.
Proof. unfold pretty_N_char. by repeat case_match. Qed.

Lemma pretty_N_go_digits x s :
  all_digits s = true → all_digits (pretty_N_go x s) = true.
Proof.
  revert s. induction (N.lt_wf_0 x) as [x _ IH]; intros s Hs.
  assert (x = 0 ∨ 0 < x)%N as [->|?] by lia.
  - by rewrite pretty_N_go_0.
  - rewrite pretty_N_go_step by done. apply IH.
    { by apply N.div_lt. }
    simpl. by rewrite pretty_N_char_digit.
Qed.

Lemma pretty_nat_digits (n : nat) : all_digits (pretty n) = true.
Proof.
  unfold pretty, pretty_nat, pretty, pretty_N.
  case_decide; [done|]. by apply pretty_N_go_digits.
Qed.

Lemma digits_delimited (d1 d2 x y : string) :
  all_digits d1 = true → all_digits d2 = true →
  d1 +:+ String "_" x = d2 +:+ String "_" y → d1 = d2.
Proof.
  revert d2. induction d1 as [|c1 d1 IH]; intros [|c2 d2] H1 H2 Heq.
  - done.
  - change (String "_" x = String c2 (d2 +:+ String "_" y)) in Heq.
    injection Heq as <- _. by simpl in H2.
  - change (String c1 (d1 +:+ String "_" x) = String "_" y) in Heq.
    injection Heq as -> _. by simpl in H1.
  - change (String c1 (d1 +:+ String "_" x) = String c2 (d2 +:+ String "_" y))
      in Heq.
    injection Heq as -> Heq. simpl in H1, H2.
    apply andb_true_iff in H1 as [_ H1]. apply andb_true_iff in H2 as [_ H2].
    f_equal. by apply IH.
Qed.

Lemma segment_tag_inj (i j : nat) (x y : string) :
  "c" +:+ pretty i +:+ "_" +:+ x = "c" +:+ pretty j +:+ "_" +:+ y → i = j.
Proof.
  intros Heq.
  change (String "c" (pretty i +:+ String "_" x) =
          String "c" (pretty j +:+ String "_" y)) in Heq.
  injection Heq as Heq.
  apply digits_delimited in Heq; try apply pretty_nat_digits.
  by apply (inj pretty).
Qed.

Lemma scan_scoped i cl reply d u : scan_for i cl reply = Ok (d, u) → scoped i d.
Proof.
  unfold scan_for, scanChapterForNuggets, scoped.
  destruct reply as [|response]; [done|].
  destruct (parse_body response) as [rawData|]; [|done].
  destruct (_ || _); [intros [= <- _]; constructor|].
  destruct (rd_nuggets rawData) as [nuggets|]; [|done].
  intros [= <- _]. simpl. apply mapi_from_Forall.
  intros x k _. by exists (raw_id x).
Qed.

Lemma retagged_scoped i d id tags : scoped i d → scoped i (retagged id tags d).
Proof.
  unfold scoped, retagged. simpl. intros Hd.
  apply Forall_fmap. eapply Forall_impl; [exact Hd|].
  intros n [raw Hn]. simpl. exists raw. by destruct (bool_decide _).
Qed.

(** X10. Nuggets cached for different segments never share an id: the id of
    a cached nugget starts with the tag of the segment it is cached under. *)
Theorem cached_ids_identify_their_segment
    (store : gmap string Snapshot) (s : State)
    (i j : nat) (d d' : ChapterData) (n n' : BookNugget) :
  reachable store s → i ≠ j →
  cachedChapters s !! i = Some d → cachedChapters s !! j = Some d' →
  n ∈ cd_nuggets d → n' ∈ cd_nuggets d' →
  bn_id n ≠ bn_id n'.
Proof.
  intros Hs Hij Hi Hj Hn Hn' Hid.
  destruct (reachable_cache_inv scoped scan_scoped retagged_scoped store s Hs)
    as [Hc _].
  pose proof (Hc i d Hi) as Hd. pose proof (Hc j d' Hj) as Hd'.
  unfold scoped in Hd, Hd'. rewrite Forall_forall in Hd, Hd'.
  destruct (Hd n Hn) as [x Hx]. destruct (Hd' n' Hn') as [y Hy].
  rewrite Hx, Hy in Hid. by apply segment_tag_inj in Hid.
Qed.

Lemma cached_ids_identify_their_segment_witness :
  bn_id (sample_nugget "X") ≠ bn_id sample_nugget_two.
Proof.
  refine (cached_ids_identify_their_segment ∅ sample_prefetched 0 1
            (sample_data 0 "One" "X" "Pages 1-3")
            (sample_data 1 "Two" "Z" "Pages 4-6") _ _ _ _ _ _ _ _).
  - apply reachable_run, reachable_step, reachable_run, reachable_init.
  - lia.
  - vm_compute. reflexivity.
  - vm_compute. reflexivity.
  - left.
  - left.
Defined.

(** ** Opening a book *)

Lemma analyzeChapter_progress r i s :
  currentChapterIndex (analyzeChapter r i s) = currentChapterIndex s ∧
  notes (analyzeChapter r i s) = notes s ∧
  stats (analyzeChapter r i s) = stats s.
Proof. unfold analyzeChapter. by repeat case_match. Qed.

Lemma effects_same_key_progress prev cur :
  storageKey prev = storageKey cur →
  snapshot_of (effects prev cur) = snapshot_of cur.
Proof.
  intros Hk. rewrite (effects_same_key _ _ Hk).
  destruct (analyzeChapter_saved cur (currentChapterIndex cur) (persist cur))
    as [_ Hs].
  repeat case_match; by rewrite ?Hs, snapshot_of_persist.
Qed.

Lemma handleFileUpload_end_ok f r s :
  parse_upload f = Ok r →
  handleFileUpload_end f s =
  set_isProcessing false (set_currentChapterIndex 0 (set_book (Some (book_of r)) s)).
Proof. intros Hr. unfold handleFileUpload_end. by rewrite Hr. Qed.

(** X11. Opening a file whose title has a snapshot in the store restores the
    segment index, the ledger and the usage totals of the snapshot, and the
    store still holds that snapshot afterwards. *)
Theorem reopening_restores_saved_progress
    (s : State) (f : File) (r : ParseResult) (snap : Snapshot) :
  book s = None →
  parse_upload f = Ok r →
  localStorage s !! ("manan_progress_" +:+ replace_spaces (pr_title r)) = Some snap →
  let s' := step s (UploadEnd f) in
  currentChapterIndex s' = sn_chapterIndex snap ∧
  notes s' = sn_notes snap ∧
  stats s' = sn_stats snap ∧
  localStorage s' !! ("manan_progress_" +:+ replace_spaces (pr_title r)) = Some snap.
Proof.
  intros Hbook Hr Hsnap s'.
  set (key := "manan_progress_" +:+ replace_spaces (pr_title r)) in *.
  assert (snapshot_of s' = snap) as Hsnapshot.
  { subst s'. unfold step, commit. cbn [handle].
    rewrite (handleFileUpload_end_ok f r s Hr).
    set (next := set_isProcessing false _).
    assert (storageKey next = Some key) as Hkey by done.
    assert (storageKey s = None) as Hnone by (unfold storageKey; by rewrite Hbook).
    rewrite effects_same_key_progress
      by (unfold storageKey; by rewrite effects_book).
    unfold effects. rewrite bool_decide_eq_false_2 by (by rewrite Hnone, Hkey).
    rewrite Hkey. simpl. change (localStorage next) with (localStorage s).
    rewrite Hsnap. by destruct snap. }
  assert (storageKey s' = Some key) as Hkey'.
  { subst s'. unfold step, storageKey. rewrite commit_book. cbn [handle].
    by rewrite (handleFileUpload_end_ok f r s Hr). }
  rewrite <- Hsnapshot. repeat split.
  exact (saved_snapshot_is_current s (UploadEnd f) key Hkey').
Qed.

Lemma reopening_restores_saved_progress_witness :
  let s' := step sample_returning (UploadEnd sample_file) in
  currentChapterIndex s' = 2 ∧
  notes s' = [sample_saved_note] ∧
  stats s' = mkUsageStats 300 60 0%float ∧
  localStorage s' !! ("manan_progress_" +:+ replace_spaces (pr_title (parsePdf "My Book.pdf" sample_pdf)))
    = Some sample_snapshot.
Proof.
  refine (reopening_restores_saved_progress sample_returning sample_file
            (parsePdf "My Book.pdf" sample_pdf) sample_snapshot _ _ _).
  - vm_compute. reflexivity.
  - vm_compute. reflexivity.
  - vm_compute. reflexivity.
Defined.

(** X12. Opening a book while no analysis is running and segment 0 is not
    cached issues exactly one request, a direct fetch of segment 0 under the
    filters of the moment, also when a saved snapshot moves the view to
    another segment. *)
Theorem opening_a_book_fetches_the_first_segment
    (s : State) (f : File) (r : ParseResult) :
  book s = None → isAnalyzing s = false → cachedChapters s !! 0 = None →
  parse_upload f = Ok r →
  let s' := step s (UploadEnd f) in
  pending s' =
    pending s ++ [mkRequest Direct 0
                    (mkClosure (book_of r) (analyzeBackMatter s)
                               (analyzeBoilerplate s) (selectedNuggetTypes s))] ∧
  isAnalyzing s' = true.
Proof.
  intros Hbook Hidle Hcache Hr s'. subst s'. unfold step. cbn [handle].
  rewrite (handleFileUpload_end_ok f r s Hr).
  set (next := set_isProcessing false _).
  set (rq := mkRequest Direct 0 _).
  assert (pending (effects s next) = pending s ++ [rq] ∧
          isAnalyzing (effects s next) = true) as [Hp Ha].
  { unfold effects.
    rewrite (bool_decide_eq_false_2 (analyze_deps s = analyze_deps next))
      by (unfold analyze_deps; simpl; rewrite Hbook; congruence).
    change (isAnalyzing next) with (isAnalyzing s). rewrite Hidle.
    unfold analyzeChapter. change (book next) with (Some (book_of r)).
    cbn iota. autorewrite with persist.
    change (cachedChapters next) with (cachedChapters s).
    change (currentChapterIndex next) with 0. rewrite Hcache.
    by destruct (if bool_decide (storageKey s = storageKey next) then None
                 else storageKey next ≫= (λ k, localStorage next !! k)). }
  unfold commit.
  rewrite effects_same_key by (unfold storageKey; by rewrite effects_book).
  rewrite Ha. destruct (bool_decide _); by autorewrite with persist.
Qed.

Lemma opening_a_book_fetches_the_first_segment_witness :
  let s' := step sample_returning (UploadEnd sample_file) in
  pending s' =
    pending sample_returning ++
      [mkRequest Direct 0
         (mkClosure (book_of (parsePdf "My Book.pdf" sample_pdf))
            false false [QUOTE; LEARNING; INSIGHT])] ∧
  isAnalyzing s' = true.
Proof.
  refine (opening_a_book_fetches_the_first_segment sample_returning sample_file
            (parsePdf "My Book.pdf" sample_pdf) _ _ _ _).
  - vm_compute. reflexivity.
  - vm_compute. reflexivity.
  - vm_compute. reflexivity.
  - vm_compute. reflexivity.
Defined.

(** ** Usage totals *)



(** ** Tag edits as the reader sees them *)

Lemma find_retag {A} (key : A → string) (f : A → A) (id : string) (l : list A) :
  (∀ n, key (f n) = key n) →
  List.find (λ n, bool_decide (key n = id))
    ((λ n, if bool_decide (key n = id) then f n else n) <$> l)
  = f <$> List.find (λ n, bool_decide (key n = id)) l.
Proof.
  intros Hkey. induction l as [|x l IH]; [done|].
  rewrite fmap_cons. cbn [List.find].
  destruct (bool_decide (key x = id)) eqn:Hx.
  - rewrite Hkey, Hx. done.
  - by rewrite Hx.
Qed.

Lemma currentTags_of_updateNuggetTags id tags s :
  currentTags_of id (updateNuggetTags id tags s) =
  (λ _, tags) <$> currentTags_of id s.
Proof.
  unfold currentTags_of.
  rewrite updateNuggetTags_currentChapterData, updateNuggetTags_notes.
  rewrite (find_retag nt_id (note_with_tags tags)) by done.
  destruct (currentChapterData s) as [cd|]; simpl.
  - rewrite (find_retag bn_id (nugget_with_tags tags)) by done.
    destruct (List.find _ (cd_nuggets cd)); simpl; [done|].
    by destruct (List.find _ (notes s)).
  - by destruct (List.find _ (notes s)).
Qed.

Lemma currentTags_of_persist id s : currentTags_of id (persist s) = currentTags_of id s.
Proof. unfold currentTags_of. by autorewrite with persist. Qed.

Lemma tag_event_quiet id input tag s e :
  e = AddTag id input ∨ e = RemoveTag id tag →
  step s e = persist (persist (handle e s)).
Proof.
  intros He. unfold step. apply commit_quiet;
    destruct He as [-> | ->]; cbn [handle];
    unfold handleAddTag, removeTag, updateNuggetTags;
    repeat case_match; done.
Qed.

Lemma currentTags_of_add id input s tags :
  currentTags_of id s = Some tags →
  currentTags_of id (step s (AddTag id input)) =
  Some (if bool_decide (js_trim input = "") then tags
        else if bool_decide (clean_tag input ∈ tags) then tags
        else tags ++ [clean_tag input]).
Proof.
  intros Htags. rewrite (tag_event_quiet id input "" s) by by left.
  rewrite !currentTags_of_persist. cbn [handle]. unfold handleAddTag.
  destruct (bool_decide (js_trim input = "")); [done|]. rewrite Htags.
  destruct (bool_decide (clean_tag input ∈ tags)); [done|].
  by rewrite currentTags_of_updateNuggetTags, Htags.
Qed.

Lemma currentTags_of_remove id tag s tags :
  currentTags_of id s = Some tags →
  currentTags_of id (step s (RemoveTag id tag)) = Some (filter (λ t, t ≠ tag) tags).
Proof.
  intros Htags. rewrite (tag_event_quiet id "" tag s) by by right.
  rewrite !currentTags_of_persist. cbn [handle]. unfold removeTag. rewrite Htags.
  by rewrite currentTags_of_updateNuggetTags, Htags.
Qed.

(** X14. Adding a tag to a nugget whose tags are distinct leaves them
    distinct, keeps every tag it had, and, unless the input is blank, makes
    the cleaned input one of them: adding a tag twice adds it once. *)
Theorem adding_a_tag_keeps_tags_distinct
    (s : State) (id input : string) (tags : list string) :
  currentTags_of id s = Some tags → NoDup tags →
  ∃ tags', currentTags_of id (step s (AddTag id input)) = Some tags' ∧
           NoDup tags' ∧ tags ⊆ tags' ∧
           (js_trim input ≠ "" → clean_tag input ∈ tags').
Proof.
  intros Htags Hnodup. rewrite (currentTags_of_add id input s tags Htags).
  eexists. split; [done|].
  case_bool_decide as Hblank; [by repeat split|].
  case_bool_decide as Hin; [by repeat split|].
  repeat split.
  - apply NoDup_app. repeat split; [done| |apply NoDup_singleton].
    intros t Ht ->%list_elem_of_singleton. done.
  - intros t Ht. apply elem_of_app. by left.
  - intros _. apply elem_of_app. right. by apply list_elem_of_singleton.
Qed.

Lemma adding_a_tag_keeps_tags_distinct_witness :
  ∃ tags', currentTags_of "c0_n0" (step sample_displayed (AddTag "c0_n0" " #war ")) = Some tags' ∧
           NoDup tags' ∧ [] ⊆ tags' ∧
           (js_trim " #war " ≠ "" → clean_tag " #war " ∈ tags').
Proof.
  apply (adding_a_tag_keeps_tags_distinct sample_displayed "c0_n0" " #war " []).
  - vm_compute. reflexivity.
  - constructor.
Defined.

(** X15. Removing the tag that was just added restores the tags the nugget
    had, when the tag was not among them. *)
Theorem removing_an_added_tag_restores_the_tags
    (s : State) (id input : string) (tags : list string) :
  currentTags_of id s = Some tags → clean_tag input ∉ tags →
  currentTags_of id (run s [AddTag id input; RemoveTag id (clean_tag input)])
  = Some tags.
Proof.
  intros Htags Hnew. cbn [run fold_left].
  rewrite (currentTags_of_remove id (clean_tag input) _ _
             (currentTags_of_add id input s tags Htags)).
  f_equal. rewrite (bool_decide_eq_false_2 _ Hnew).
  assert (filter (λ t, t ≠ clean_tag input) tags = tags) as Hsame.
  { apply filter_all. by intros t Ht ->. }
  destruct (bool_decide (js_trim input = "")); [done|].
  rewrite filter_app, Hsame, filter_cons_False, filter_nil, app_nil_r; [done|].
  by intros H.
Qed.

Lemma removing_an_added_tag_restores_the_tags_witness :
  currentTags_of "c0_n0"
    (run sample_displayed [AddTag "c0_n0" " #war "; RemoveTag "c0_n0" (clean_tag " #war ")])
  = Some [].
Proof.
  apply (removing_an_added_tag_restores_the_tags sample_displayed "c0_n0" " #war " []).
  - vm_compute. reflexivity.
  - apply not_elem_of_nil.
Defined.

(** ** The context of a search *)

(** X16. A search looks at the segments at distance at most two from the
    current one, in book order: at most five segments, each of them a segment
    of the book at its place. *)
Theorem search_context_is_the_neighbourhood (b : Book) (i j : nat) :
  length (chunksToSearch b i)
    = Nat.min (length (bk_chapters b)) (i + 3) - (i - 2) ∧
  length (chunksToSearch b i) ≤ 5 ∧
  (i - 2 ≤ j → j ≤ i + 2 →
   chunksToSearch b i !! (j - (i - 2)) = bk_chapters b !! j).
Proof.
  unfold chunksToSearch, slice.
  assert (length (take (Nat.min (length (bk_chapters b)) (i + 3) - (i - 2))
                    (drop (i - 2) (bk_chapters b)))
          = Nat.min (length (bk_chapters b)) (i + 3) - (i - 2)) as Hlen.
  { rewrite length_take, length_drop. lia. }
  split; [exact Hlen|]. split; [rewrite Hlen; lia|].
  intros Hlo Hhi.
  destruct (decide (j < length (bk_chapters b))) as [Hj|Hj].
  - rewrite lookup_take_lt by lia. rewrite lookup_drop. f_equal. lia.
  - rewrite (lookup_ge_None_2 (bk_chapters b) j) by lia.
    apply lookup_ge_None_2. rewrite Hlen. lia.
Qed.

Lemma search_context_is_the_neighbourhood_witness :
  let b := mkBook "T" ["a"; "b"; "c"; "d"; "e"; "f"; "g"; "h"] [] in
  length (chunksToSearch b 6) = Nat.min (length (bk_chapters b)) (6 + 3) - (6 - 2) ∧
  length (chunksToSearch b 6) ≤ 5 ∧
  (6 - 2 ≤ 7 → 7 ≤ 6 + 2 →
   chunksToSearch b 6 !! (7 - (6 - 2)) = bk_chapters b !! 7).
Proof.
  intros b. apply (search_context_is_the_neighbourhood b 6 7).
Defined.

(** ** The export *)

Lemma group_push_keys n grouped :
  (group_push n grouped).*1 =
  grouped.*1 ++ (if decide (nt_chapterTitle n ∈ grouped.*1) then []
                 else [nt_chapterTitle n]).
Proof.
  induction grouped as [|[title items] rest IH]; cbn [group_push].
  - destruct (decide _) as [Hin|_]; [by apply elem_of_nil in Hin|done].
  - case_bool_decide as Ht; rewrite !fmap_cons; cbn [fst].
    + rewrite decide_True by (rewrite Ht; left). by rewrite app_nil_r.
    + rewrite IH. cbn [app]. f_equal. f_equal.
      destruct (decide (_ ∈ rest.*1)) as [Hin|Hin].
      * rewrite decide_True; [done|by right].
      * rewrite decide_False; [done|].
        intros [?|?]%elem_of_cons; [by apply Ht|done].
Qed.

Lemma notes_titled_snoc title notes n :
  notes_titled title (notes ++ [n]) =
  notes_titled title notes ++
    (if decide (nt_chapterTitle n = title) then [n] else []).
Proof.
  unfold notes_titled. by rewrite filter_app.
Qed.

Lemma entry_other_title n notes (e : string * list NoteItem) :
  e.1 ≠ nt_chapterTitle n →
  e.2 ≠ [] ∧ e.2 = notes_titled e.1 notes →
  e.2 ≠ [] ∧ e.2 = notes_titled e.1 (notes ++ [n]).
Proof.
  intros Hne [Hnil Heq]. split; [done|].
  rewrite notes_titled_snoc, decide_False by done. by rewrite app_nil_r.
Qed.

Lemma group_push_entries n notes grouped :
  NoDup grouped.*1 →
  Forall (λ e, e.2 ≠ [] ∧ e.2 = notes_titled e.1 notes) grouped →
  (nt_chapterTitle n ∉ grouped.*1 → notes_titled (nt_chapterTitle n) notes = []) →
  Forall (λ e, e.2 ≠ [] ∧ e.2 = notes_titled e.1 (notes ++ [n]))
         (group_push n grouped).
Proof.
  induction grouped as [|[title items] rest IH]; intros Hnodup Hall Hnew; simpl.
  - apply Forall_singleton. simpl. split; [done|].
    rewrite notes_titled_snoc, decide_True by done.
    rewrite Hnew; [done|apply not_elem_of_nil].
  - simpl in Hnodup. apply NoDup_cons in Hnodup as [Hhead Hnodup].
    apply Forall_cons in Hall as [[Hnil Heq] Hall]. simpl in Hnil, Heq.
    case_bool_decide as Ht.
    + constructor; simpl.
      * split; [by destruct items|].
        rewrite notes_titled_snoc, decide_True by done. by rewrite <- Heq.
      * apply Forall_forall. intros e He.
        apply entry_other_title.
        { intros Hsame. apply Hhead. rewrite Ht, <- Hsame.
          by apply list_elem_of_fmap_2. }
        by apply (proj1 (Forall_forall _ _) Hall).
    + constructor; simpl.
      * by apply (entry_other_title n notes (title, items)).
      * apply IH; [done|done|]. intros Hnotin. apply Hnew.
        intros [?|?]%elem_of_cons; [by apply Ht|done].
Qed.

Lemma filter_none {A} (P : A → Prop) `{∀ x, Decision (P x)} (l : list A) :
  (∀ x, x ∈ l → ¬ P x) → filter P l = [].
Proof.
  induction l as [|y l IH]; intros Hl; [done|].
  rewrite filter_cons_False by (apply Hl; left).
  apply IH. intros x Hx. apply Hl. by right.
Qed.

Lemma group_push_files_all n notes grouped :
  files_all notes grouped → files_all (notes ++ [n]) (group_push n grouped).
Proof.
  intros (Hnodup & Hall & Hcover). split; [|split].
  - rewrite group_push_keys. destruct (decide _) as [Hin|Hin].
    + by rewrite app_nil_r.
    + apply NoDup_app. repeat split; [done| |apply NoDup_singleton].
      by intros t Ht ->%list_elem_of_singleton.
  - apply group_push_entries; [done|done|]. intros Hnotin.
    apply filter_none. intros m Hm Hsame. apply Hnotin.
    rewrite <- Hsame. by apply Hcover.
  - intros m Hm. rewrite group_push_keys. apply elem_of_app.
    apply elem_of_app in Hm as [Hm | ->%list_elem_of_singleton].
    + left. by apply Hcover.
    + destruct (decide _) as [Hin|Hin]; [by left|right; left].
Qed.

Lemma group_notes_snoc notes n :
  group_notes (notes ++ [n]) = group_step (group_notes notes) n.
Proof. unfold group_notes. by rewrite fold_left_app. Qed.

Lemma group_notes_files_all notes :
  Forall (λ n, nt_chapterTitle n ∉ prototype_names) notes →
  ∃ grouped, group_notes notes = Ok grouped ∧ files_all notes grouped.
Proof.
  induction notes as [|n notes IH] using rev_ind; intros Hnotes.
  - exists []. split; [done|]. split; [constructor|]. split; [constructor|].
    by intros n Hn%elem_of_nil.
  - apply Forall_app in Hnotes as [Hnotes Hn].
    rewrite Forall_singleton in Hn.
    destruct (IH Hnotes) as (grouped & Hg & Hfiles).
    exists (group_push n grouped). split; [|by apply group_push_files_all].
    rewrite group_notes_snoc, Hg. unfold group_step.
    by rewrite (bool_decide_eq_false_2 _ Hn).
Qed.

Lemma object_entries_Permutation {V} (o : list (string * V)) :
  object_entries o ≡ₚ o.
Proof.
  unfold object_entries. rewrite js_sort_Permutation.
  apply filter_app_complement.
Qed.

Lemma files_all_Permutation notes grouped entries :
  entries ≡ₚ grouped → files_all notes grouped → files_all notes entries.
Proof.
  intros Hperm (Hnodup & Hall & Hcover). split; [|split].
  - by rewrite Hperm.
  - by rewrite Hperm.
  - intros n Hn. rewrite Hperm. by apply Hcover.
Qed.

(** X17. When no note is filed under a title that names an inherited
    property, the export is the heading of the book followed by one section
    for each chapter title that occurs, and each section lists the notes of
    its title, all of them and in ledger order: every note is exported once. *)
Theorem export_lists_every_note_once_under_its_title
    (title : option string) (notes : list NoteItem) :
  Forall (λ n, nt_chapterTitle n ∉ prototype_names) notes →
  ∃ entries,
    notes_markdown title notes =
      Ok ("# Reading Notes: " +:+ default "undefined" title +:+ newline2
          +:+ concat_strings (section_markdown <$> entries)) ∧
    files_all notes entries.
Proof.
  intros Hnotes.
  destruct (group_notes_files_all notes Hnotes) as (grouped & Hg & Hfiles).
  exists (object_entries grouped). split.
  - unfold notes_markdown. by rewrite Hg.
  - eapply files_all_Permutation; [apply object_entries_Permutation|done].
Qed.

Lemma export_lists_every_note_once_under_its_title_witness :
  ∃ entries,
    notes_markdown (Some "My Book") [sample_saved_note] =
      Ok ("# Reading Notes: " +:+ default "undefined" (Some "My Book") +:+ newline2
          +:+ concat_strings (section_markdown <$> entries)) ∧
    files_all [sample_saved_note] entries.
Proof.
  apply (export_lists_every_note_once_under_its_title (Some "My Book")
           [sample_saved_note]).
  apply Forall_singleton. apply (bool_decide_unpack _). vm_compute. exact I.
Defined.

Lemma group_notes_throws n notes acc :
  n ∈ notes → nt_chapterTitle n ∈ prototype_names →
  acc = Throw TypeError ∨ (∃ grouped, acc = Ok grouped) →
  fold_left group_step notes acc = Throw TypeError.
Proof.
  intros Hn Hproto. revert acc.
  induction notes as [|m notes IH]; intros acc Hacc; [by apply elem_of_nil in Hn|].
  cbn [fold_left].
  assert (group_step acc m = Throw TypeError ∨ ∃ grouped, group_step acc m = Ok grouped)
    as Hstep.
  { destruct Hacc as [-> | [grouped ->]]; [by left|]. unfold group_step.
    destruct (bool_decide _); [by left|right; by eexists]. }
  apply elem_of_cons in Hn as [<- | Hn]; [|by apply IH].
  assert (group_step acc n = Throw TypeError) as ->.
  { destruct Hacc as [-> | [grouped ->]]; [done|]. unfold group_step.
    by rewrite bool_decide_eq_true_2. }
  clear. induction notes as [|m notes IH]; [done|]. exact IH.
Qed.

(** X18. When some note is filed under a chapter title that names a property
    every object inherits, such as [constructor] or [toString], building the
    export raises a TypeError. *)
Theorem export_fails_on_an_inherited_title
    (title : option string) (notes : list NoteItem) (n : NoteItem) :
  n ∈ notes → nt_chapterTitle n ∈ prototype_names →
  notes_markdown title notes = Throw TypeError.
Proof.
  intros Hn Hproto. unfold notes_markdown, group_notes.
  rewrite (group_notes_throws n notes (Ok []) Hn Hproto); [done|].
  right. by eexists.
Qed.

Lemma export_fails_on_an_inherited_title_witness :
  notes_markdown (Some "My Book")
    [mkNoteItem "c2_n0" "X" "quote" "constructor" 2 0 None [] None]
  = Throw TypeError.
Proof.
  apply (export_fails_on_an_inherited_title (Some "My Book") _
           (mkNoteItem "c2_n0" "X" "quote" "constructor" 2 0 None [] None)).
  - left.
  - left.
Defined.

(** ** The store *)



Lemma persist_other_key s k :
  storageKey s ≠ Some k → localStorage (persist s) !! k = localStorage s !! k.
Proof.
  intros Hk. unfold persist. destruct (storageKey s) as [k'|]; [|done].
  simpl. apply lookup_insert_ne. congruence.
Qed.

Lemma effects_other_key prev cur k :
  storageKey cur ≠ Some k →
  localStorage (effects prev cur) !! k = localStorage cur !! k.
Proof.
  intros Hk. rewrite <- (persist_other_key cur k Hk). f_equal.
  unfold effects.
  destruct (analyzeChapter_saved cur (currentChapterIndex cur) (persist cur))
    as [Hl _].
  repeat case_match; simpl; by rewrite ?Hl.
Qed.

Lemma handle_other_key e s k :
  storageKey s ≠ Some k →
  localStorage (handle e s) !! k = localStorage s !! k.
Proof.
  intros Hk.
  destruct e as [|f|i| | |t|n|i tags|i input|i tag|c| |q reply|q]; cbn [handle];
    try done.
  - unfold handleFileUpload_end. by destruct (parse_upload f).
  - unfold toggleNuggetTypePreference.
    by destruct (analyzeChapter_saved s (currentChapterIndex s)
      (set_cachedChapters ∅
        (set_selectedNuggetTypes
          (if bool_decide (t ∈ selectedNuggetTypes s)
           then filter (λ t0, t0 ≠ t) (selectedNuggetTypes s)
           else selectedNuggetTypes s ++ [t]) s))) as [-> _].
  - unfold toggleNote. by destruct (List.find _ _).
  - by rewrite updateNuggetTags_localStorage.
  - unfold handleAddTag. repeat case_match; try done.
    by rewrite updateNuggetTags_localStorage.
  - unfold removeTag. case_match; [|done].
    by rewrite updateNuggetTags_localStorage.
  - unfold downloadNotes. destruct (bool_decide _); [done|]. destruct c; [|done].
    destruct (storageKey s) as [k'|]; [|done]. simpl.
    apply lookup_delete_ne. congruence.
  - destruct (pending s !! q) as [rq|]; [|done].
    unfold analyzeChapter_resume, prefetchNext_resume.
    destruct (rq_kind rq); by destruct (scan_for _ _ _) as [[??]|].
  - destruct (timers s !! q) as [tm|]; [|done].
    unfold prefetchNext. simpl. by destruct (_ || _).
Qed.

(** X20. A step changes the store at most under the key of the book that was
    open before it and the key of the book that is open after it: the saved
    progress of every other book stays as it is. *)
Theorem progress_of_other_books_is_untouched
    (s : State) (e : Event) (k : string) :
  storageKey s ≠ Some k → storageKey (step s e) ≠ Some k →
  localStorage (step s e) !! k = localStorage s !! k.
Proof.
  intros Hbefore Hafter.
  assert (storageKey (handle e s) ≠ Some k) as Hnext.
  { intros Hk. apply Hafter. unfold step, storageKey in *.
    by rewrite commit_book. }
  unfold step, commit.
  rewrite effects_other_key
    by (unfold storageKey in *; by rewrite effects_book).
  rewrite effects_other_key by done.
  by apply handle_other_key.
Qed.

Lemma progress_of_other_books_is_untouched_witness :
  let s := sample_two_books in
  let s' := step s (ToggleNote (sample_nugget "X")) in
  offered s (ToggleNote (sample_nugget "X")) = true ∧
  storageKey s = Some "manan_progress_My_Book" ∧
  localStorage s !! "manan_progress_My_Book"
    = Some (mkSnapshot 0 [] (sn_stats (snapshot_of s))) ∧
  (sn_notes <$> localStorage s' !! "manan_progress_My_Book")
    = Some [newNote_of (sample_nugget "X") s] ∧
  localStorage s !! "manan_progress_Other_Book" = Some sample_snapshot ∧
  localStorage s' !! "manan_progress_Other_Book"
    = localStorage s !! "manan_progress_Other_Book".
Proof.
  intros s s'.
  do 5 (split; [vm_compute; reflexivity|]).
  apply (progress_of_other_books_is_untouched s (ToggleNote (sample_nugget "X"))).
  - vm_compute. discriminate.
  - vm_compute. discriminate.
Defined.

(** ** The selection of types *)

Lemma effects_selectedNuggetTypes prev cur :
  selectedNuggetTypes (effects prev cur) = selectedNuggetTypes cur.
Proof. by unfold_effects. Qed.

Lemma handle_selectedNuggetTypes e s :
  selectedNuggetTypes (handle e s) =
  match e with
  | ToggleNuggetType t =>
      if bool_decide (t ∈ selectedNuggetTypes s)
      then filter (λ t', t' ≠ t) (selectedNuggetTypes s)
      else selectedNuggetTypes s ++ [t]
  | _ => selectedNuggetTypes s
  end.
Proof.
  destruct e as [|f|i| | |t|n|i tags|i input|i tag|c| |q reply|q]; cbn [handle];
    try done.
  - unfold handleFileUpload_end. by destruct (parse_upload f).
  - unfold toggleNuggetTypePreference, analyzeChapter. by repeat case_match.
  - unfold toggleNote. by destruct (List.find _ _).
  - unfold updateNuggetTags. by destruct (currentChapterData s).
  - unfold handleAddTag, updateNuggetTags. by repeat case_match.
  - unfold removeTag, updateNuggetTags. by repeat case_match.
  - unfold downloadNotes. by repeat case_match.
  - destruct (pending s !! q) as [rq|]; [|done].
    unfold analyzeChapter_resume, prefetchNext_resume.
    destruct (rq_kind rq); by destruct (scan_for _ _ _) as [[??]|].
  - destruct (timers s !! q) as [tm|]; [|done].
    unfold prefetchNext. simpl. by destruct (_ || _).
Qed.

Lemma step_selectedNuggetTypes s e :
  selectedNuggetTypes (step s e) = selectedNuggetTypes (handle e s).
Proof. unfold step, commit. by rewrite !effects_selectedNuggetTypes. Qed.

Lemma length_filter_remove (t : NuggetType) (l : list NuggetType) :
  NoDup l → t ∈ l → S (length (filter (λ t', t' ≠ t) l)) = length l.
Proof.
  induction l as [|x l IH]; intros Hnodup Hin; [by apply elem_of_nil in Hin|].
  apply NoDup_cons in Hnodup as [Hx Hnodup].
  destruct (decide (x = t)) as [->|Hne].
  - rewrite filter_cons_False by (by intros H). simpl. f_equal.
    f_equal. apply filter_all. by intros y Hy ->.
  - rewrite filter_cons_True by done. simpl. f_equal. apply IH; [done|].
    apply elem_of_cons in Hin as [->|Hin]; done.
Qed.

(** X21. The selection never holds a type twice, and switching a type
    changes the number of selected types by exactly one: it selects the type
    if it was not selected and deselects it otherwise. *)
Theorem type_selection_has_no_duplicates
    (store : gmap string Snapshot) (s : State) (t : NuggetType) :
  reachable store s →
  let s' := step s (ToggleNuggetType t) in
  NoDup (selectedNuggetTypes s) ∧
  (t ∈ selectedNuggetTypes s' ↔ t ∉ selectedNuggetTypes s) ∧
  (∀ t', t' ≠ t → t' ∈ selectedNuggetTypes s' ↔ t' ∈ selectedNuggetTypes s) ∧
  length (selectedNuggetTypes s') =
    if bool_decide (t ∈ selectedNuggetTypes s)
    then length (selectedNuggetTypes s) - 1
    else length (selectedNuggetTypes s) + 1.
Proof.
  intros Hs s'.
  assert (NoDup (selectedNuggetTypes s)) as Hnodup.
  { clear s' t. induction Hs as [|s e _ IH].
    - simpl. apply (bool_decide_unpack _). vm_compute. exact I.
    - rewrite step_selectedNuggetTypes, handle_selectedNuggetTypes.
      destruct e; try done. case_bool_decide as Hin.
      + by apply NoDup_filter.
      + apply NoDup_app. repeat split; [done| |apply NoDup_singleton].
        by intros x Hx ->%list_elem_of_singleton. }
  split; [done|]. subst s'.
  rewrite step_selectedNuggetTypes, handle_selectedNuggetTypes.
  case_bool_decide as Hin.
  - split; [|split].
    + rewrite list_elem_of_filter.
      split; [intros [Hne _]; by destruct Hne | intros Hnot; by destruct Hnot].
    + intros t' Ht'. rewrite list_elem_of_filter. tauto.
    + pose proof (length_filter_remove t _ Hnodup Hin). lia.
  - split; [|split].
    + rewrite elem_of_app, list_elem_of_singleton.
      split; [done | intros _; by right].
    + intros t' Ht'. rewrite elem_of_app, list_elem_of_singleton. tauto.
    + rewrite length_app. simpl. lia.
Qed.

Lemma type_selection_has_no_duplicates_witness :
  let s' := step sample_displayed (ToggleNuggetType QUOTE) in
  NoDup (selectedNuggetTypes sample_displayed) ∧
  (QUOTE ∈ selectedNuggetTypes s' ↔ QUOTE ∉ selectedNuggetTypes sample_displayed) ∧
  (∀ t', t' ≠ QUOTE →
     t' ∈ selectedNuggetTypes s' ↔ t' ∈ selectedNuggetTypes sample_displayed) ∧
  length (selectedNuggetTypes s') =
    if bool_decide (QUOTE ∈ selectedNuggetTypes sample_displayed)
    then length (selectedNuggetTypes sample_displayed) - 1
    else length (selectedNuggetTypes sample_displayed) + 1.
Proof.
  apply (type_selection_has_no_duplicates ∅ sample_displayed QUOTE).
  apply reachable_step, reachable_run, reachable_init.
Defined.
